(** * growth_modeling: the Growth base class and its variants

    A shallow embedding of [growth_modeling/growth.py] and of the four
    variants that inherit from it ([logistic_growth.py],
    [richard_growth.py], [exponential_generalized_growth.py],
    [logistic_sigmoid_growth.py]).

    Numbers are modelled as real numbers: Python floats are idealised,
    rounding, overflow and underflow are not part of the methods below
    (the last bit of two closed forms is compared in binary64 arithmetic
    in a section of its own).  A raised exception is an [Err] result.
    Division by zero and powers without a real value follow Python's
    scalars and raise; numpy scalars and arrays give inf or nan there and
    go on, which the model does not follow: no theorem below relies on
    such an exception being raised.  A [Growth] object is mutable, so methods
    live in a state-and-error monad over the object. *)

From Stdlib Require Import Floats.
From Stdlib Require Import Reals Lra List String Bool Arith Lia Permutation.
Import ListNotations.

Open Scope R_scope.
Open Scope string_scope.
Open Scope list_scope.

(** ** Exceptions *)

(** The two [assert] statements of growth.py: line 121 ([_check_params])
    and line 142 ([_get_compute_parameters]).  Both raise AssertionError;
    the tag records which statement failed. *)
Inductive assert_site : Type :=
| SignatureCheck
| ArgumentCount.

Inductive error : Type :=
| AssertionError (site : assert_site)
| Y0Unset                 (* Exception: y_0 attribute must be set ... *)
| KeyError (k : string)
| IndexError
| ValueError
| ZeroDivisionError
| NotARealNumber          (* negative base, fractional exponent *)
| RuntimeError
| AttributeError.          (* flatten() of a result that holds no array *)

Inductive result (A : Type) : Type :=
| Ok (a : A)
| Err (e : error).

Arguments Ok {A} a.
Arguments Err {A} e.

Definition bind_result {A B} (r : result A) (k : A -> result B) : result B :=
  match r with
  | Ok a => k a
  | Err e => Err e
  end.

Fixpoint mapM {A B} (f : A -> result B) (l : list A) : result (list B) :=
  match l with
  | [] => Ok []
  | x :: xs =>
      bind_result (f x) (fun y =>
      bind_result (mapM f xs) (fun ys => Ok (y :: ys)))
  end.

(** ** Python arithmetic on real numbers *)

Module PyNum.

(** [x / y]: true division of Python scalars (numpy gives inf or nan for
    a zero divisor, with a warning). *)
Definition div (x y : R) : result R :=
  if Req_dec_T y 0 then Err ZeroDivisionError else Ok (x / y).

(** [x ** y] on floats.  A positive base gives [exp (y * ln x)]; a zero
    base gives 0, 1 or a division by zero; a negative base has a real
    power only for an integral exponent. *)
Definition pow (x y : R) : result R :=
  if Rlt_dec 0 x then Ok (Rpower x y)
  else if Req_dec_T x 0 then
    if Rlt_dec 0 y then Ok 0
    else if Req_dec_T y 0 then Ok 1
    else Err ZeroDivisionError
  else
    if Req_dec_T (frac_part y) 0 then Ok (powerRZ x (Int_part y))
    else Err NotARealNumber.

(** [max(t)] of a sequence. *)
Definition max (t : list R) : result R :=
  match t with
  | [] => Err ValueError
  | x :: xs => Ok (fold_left Rmax xs x)
  end.

End PyNum.

(** ** Python dictionaries with string keys

    A dict keeps its keys in insertion order; assigning to an existing key
    keeps the key's position, assigning to a new key appends it. *)

Module Dict.

Definition t : Type := list (string * R).

Definition keys (d : t) : list string := map fst d.

Fixpoint get (d : t) (k : string) : result R :=
  match d with
  | [] => Err (KeyError k)
  | (k', v) :: d' => if String.eqb k k' then Ok v else get d' k
  end.

Fixpoint set (d : t) (k : string) (v : R) : t :=
  match d with
  | [] => [(k, v)]
  | (k', v') :: d' =>
      if String.eqb k k' then (k', v) :: d' else (k', v') :: set d' k v
  end.

(** [set(l1) == set(l2)] on two sequences of names. *)
Definition subsetb (l1 l2 : list string) : bool :=
  forallb (fun x => existsb (String.eqb x) l2) l1.

Definition set_eqb (l1 l2 : list string) : bool :=
  subsetb l1 l2 && subsetb l2 l1.

Definition same_set (l1 l2 : list string) : Prop :=
  forall x, In x l1 <-> In x l2.

End Dict.

(** ** The Growth object *)

(** The concrete classes of the package that inherit from [Growth]. *)
Inductive variant : Type :=
| LogisticGrowth
| RichardGrowth
| ExponentialGeneralizedGrowth
| LogisticSigmoidGrowth.

(** One side of a box constraint, as scipy's [curve_fit] takes it. *)
Inductive bound : Type :=
| NegInf
| Finite (r : R)
| PosInf.

(** [bounds]: a pair (lower, upper), stored and handed on unchanged. *)
Definition Bounds : Type := (list bound * list bound)%type.

(** [y_0 = None] stands for the [NotImplemented] marker. *)
Record Growth : Type := mkGrowth {
  cls : variant;
  params : Dict.t;
  bounds : Bounds;
  y_0 : option R
}.

(** [self.params_signature], as each [__init__] sets it. *)
Definition signature (v : variant) : list string :=
  match v with
  | LogisticGrowth => ["a"; "t_0"; "K"]
  | RichardGrowth => ["a"; "b"; "d"; "K"]
  | ExponentialGeneralizedGrowth => ["a"; "p"]
  | LogisticSigmoidGrowth => ["a"; "c"; "K"]
  end.

Definition params_signature (self : Growth) : list string :=
  signature (cls self).

(** The two classes whose [compute_y] reads [self.y_0]. *)
Definition needs_y_0 (v : variant) : bool :=
  match v with
  | ExponentialGeneralizedGrowth | LogisticSigmoidGrowth => true
  | _ => false
  end.

(** The classes whose [compute_y] is a formula (no integrator call). *)
Definition closed_form (v : variant) : bool :=
  match v with
  | LogisticSigmoidGrowth => false
  | _ => true
  end.

(** ** Methods: state and error monad over [self] *)

Definition M (A : Type) : Type := Growth -> result A * Growth.

Definition ret {A} (a : A) : M A := fun self => (Ok a, self).

Definition raise {A} (e : error) : M A := fun self => (Err e, self).

Definition bind {A B} (m : M A) (k : A -> M B) : M B :=
  fun self =>
    match m self with
    | (Ok a, self') => k a self'
    | (Err e, self') => (Err e, self')
    end.

Definition lift {A} (r : result A) : M A := fun self => (r, self).

Definition get_self : M Growth := fun self => (Ok self, self).

(** [self.params[key] = v] *)
Definition set_param (key : string) (v : R) : M unit :=
  fun self =>
    (Ok tt, mkGrowth (cls self) (Dict.set (params self) key v)
                     (bounds self) (y_0 self)).

Notation "x <- m ;; k" := (bind m (fun x => k))
  (at level 61, m at next level, right associativity).
Notation "m ;;; k" := (bind m (fun _ => k))
  (at level 61, right associativity).

(** growth.py, [_check_params]. *)
Definition _check_params : M unit :=
  self <- get_self ;;
  if Dict.set_eqb (Dict.keys (params self)) (params_signature self)
  then ret tt
  else raise (AssertionError SignatureCheck).

(** growth.py, [_get_compute_parameters].  The generator returned on the
    stored path is consumed at once by both of its callers (tuple
    unpacking in [compute_y], [tuple(...)] in [fit]), so the look-ups are
    done here. *)
Definition _get_compute_parameters (args : list R) : M (list R) :=
  self <- get_self ;;
  if (0 <? List.length args)%nat then
    if (List.length args =? List.length (params_signature self))%nat
    then ret args
    else raise (AssertionError ArgumentCount)
  else
    _check_params ;;;
    self <- get_self ;;
    lift (mapM (Dict.get (params self)) (params_signature self)).

(** A variant's [__init__]: store the fields, fix the signature, check the
    keys, and mark [y_0] as not set. *)
Definition init (v : variant) (p : Dict.t) (b : Bounds) : result Growth :=
  match _check_params (mkGrowth v p b None) with
  | (Ok _, self) => Ok self
  | (Err e, _) => Err e
  end.


(** [if self.y_0 == NotImplemented: raise Exception(...)] *)
Definition require_y_0 : M R :=
  self <- get_self ;;
  match y_0 self with
  | None => raise Y0Unset
  | Some v => ret v
  end.

(** logistic_growth.py, [compute_y]. *)
Definition LogisticGrowth_compute_y (t args : list R) : M (list R) :=
  ps <- _get_compute_parameters args ;;
  match ps with
  | [a; t_0; K] =>
      lift (mapM (fun ti => PyNum.div K (1 + exp (- a * (ti - t_0)))) t)
  | _ => raise ValueError
  end.

(** richard_growth.py, [compute_y].  The exponent [- 1 / b] is a scalar,
    computed once; the base is computed for each time. *)
Definition RichardGrowth_compute_y (t args : list R) : M (list R) :=
  ps <- _get_compute_parameters args ;;
  match ps with
  | [a; b; d; K] =>
      lift (bind_result (PyNum.div (- 1) b) (fun e =>
            mapM (fun ti =>
                    bind_result (PyNum.pow (1 + exp (d - a * b * ti)) e)
                                (fun w => Ok (K * w))) t))
  | _ => raise ValueError
  end.

(** exponential_generalized_growth.py, [compute_y]. *)
Definition ExponentialGeneralizedGrowth_compute_y (t args : list R)
  : M (list R) :=
  y0 <- require_y_0 ;;
  ps <- _get_compute_parameters args ;;
  match ps with
  | [a; p] =>
      lift (bind_result (PyNum.div 1 y0) (fun inv =>
            bind_result (PyNum.pow inv (p - 1)) (fun c =>
            bind_result (PyNum.div (- 1) (p - 1)) (fun e =>
            mapM (fun ti => PyNum.pow ((1 - p) * a * ti + c) e) t))))
  | _ => raise ValueError
  end.

(** logistic_sigmoid_growth.py, the right-hand side [dydt] defined inside
    [compute_y]; the integrator passes the state as a vector. *)
Definition dydt (a c K : R) (t : R) (y : list R) : result (list R) :=
  mapM (fun yi => PyNum.div (a * yi * (K - yi)) (K - yi + c * yi)) y.

Section Collaborators.

(** scipy.optimize.curve_fit(f, xdata, ydata, bounds, p0): the fitted
    parameters, or the exception it raises. *)
Variable curve_fit :
  (list R -> list R -> result (list R)) ->
  list R -> list R -> Bounds -> list R -> result (list R).

(** scipy.integrate.solve_ivp(fun, t_span, y0, t_eval): the array [out.y]
    (one row per state component) that [flatten()] is then applied to, or
    the exception raised on the way: by the call itself (evaluation points
    that are not sorted or not in the span) or by [out.y.flatten()] when
    the call leaves [out.y] a plain list (no evaluation point produced). *)
Variable solve_ivp :
  (R -> list R -> result (list R)) ->
  R * R -> list R -> list R -> result (list (list R)).

(** logistic_sigmoid_growth.py, [compute_y]. *)
Definition LogisticSigmoidGrowth_compute_y (t args : list R) : M (list R) :=
  y0 <- require_y_0 ;;
  ps <- _get_compute_parameters args ;;
  match ps with
  | [a; c; K] =>
      tmax <- lift (PyNum.max t) ;;
      out <- lift (solve_ivp (dydt a c K) (0, tmax) [y0] t) ;;
      ret (List.concat out)
  | _ => raise ValueError
  end.

(** Method dispatch on the object's class. *)
Definition compute_y (t args : list R) : M (list R) :=
  self <- get_self ;;
  match cls self with
  | LogisticGrowth => LogisticGrowth_compute_y t args
  | RichardGrowth => RichardGrowth_compute_y t args
  | ExponentialGeneralizedGrowth => ExponentialGeneralizedGrowth_compute_y t args
  | LogisticSigmoidGrowth => LogisticSigmoidGrowth_compute_y t args
  end.

(** The bound method [self.compute_y] as the optimizer calls it:
    [f(xdata, *params)]. *)
Definition forward (self : Growth) (xdata ps : list R) : result (list R) :=
  fst (compute_y xdata ps self).

(** The loop of [fit]:
    [for i, key in enumerate(self.params.keys()): self.params[key] = fit_params[i]] *)
Fixpoint fit_loop (fit_params : list R) (ks : list string) (i : nat)
  : M unit :=
  match ks with
  | [] => ret tt
  | key :: ks' =>
      match nth_error fit_params i with
      | None => raise IndexError
      | Some v => set_param key v ;;; fit_loop fit_params ks' (S i)
      end
  end.

(** growth.py, [fit].  The argument [p0] is accepted and not read. *)
Definition fit (t y p0 : list R) : M unit :=
  start <- _get_compute_parameters [] ;;
  self <- get_self ;;
  fit_params <- lift (curve_fit (forward self) t y (bounds self) start) ;;
  self <- get_self ;;
  fit_loop fit_params (Dict.keys (params self)) 0.

End Collaborators.


(** The exceptions the arithmetic of the formulas can raise. *)
Definition arithmetic_error (e : error) : Prop :=
  e = ZeroDivisionError \/ e = NotARealNumber \/ e = ValueError.

(** ** Stand-ins for the collaborators

    Total, computable optimizers and integrators used to run the methods on
    concrete objects. *)

(** An optimizer that converges at its starting point. *)
Definition echo_fit (f : list R -> list R -> result (list R))
  (xdata ydata : list R) (b : Bounds) (p0 : list R) : result (list R) :=
  Ok p0.

(** An optimizer that converges to [popt] from any starting point. *)
Definition const_fit (popt : list R)
  (f : list R -> list R -> result (list R))
  (xdata ydata : list R) (b : Bounds) (p0 : list R) : result (list R) :=
  Ok popt.

(** An optimizer that raises [e]. *)
Definition failing_fit (e : error)
  (f : list R -> list R -> result (list R))
  (xdata ydata : list R) (b : Bounds) (p0 : list R) : result (list R) :=
  Err e.

(** An integrator that accepts any evaluation points and holds each state
    component at its initial value. *)
Definition hold_solver (rhs : R -> list R -> result (list R))
  (t_span : R * R) (y0 t_eval : list R) : result (list (list R)) :=
  Ok (map (fun yi => map (fun _ => yi) t_eval) y0).

(** Sample objects. *)
Definition no_bounds : Bounds := ([], []).

Definition logistic_ex : Growth :=
  mkGrowth LogisticGrowth [("a", 1); ("t_0", 0); ("K", 100)] no_bounds None.

(** Same keys as [logistic_ex], inserted in another order. *)
Definition logistic_shuffled : Growth :=
  mkGrowth LogisticGrowth [("K", 100); ("a", 1); ("t_0", 0)] no_bounds None.

Definition richard_ex : Growth :=
  mkGrowth RichardGrowth [("a", 2); ("b", 3); ("d", 4); ("K", 5)]
           no_bounds None.

Definition gen_exp_unset : Growth :=
  mkGrowth ExponentialGeneralizedGrowth [("a", 1); ("p", 0)] no_bounds None.

Definition sigmoid_ex : Growth :=
  mkGrowth LogisticSigmoidGrowth [("a", 1); ("c", 1); ("K", 100)]
           no_bounds (Some 1).

(** A Logistic object whose dictionary lacks the key t_0. *)
Definition logistic_missing_key : Growth :=
  mkGrowth LogisticGrowth [("a", 1); ("K", 100)] no_bounds None.

(** A Logistic object with other stored values and bounds. *)
Definition logistic_other : Growth :=
  mkGrowth LogisticGrowth [("a", 7); ("t_0", 3); ("K", 9)]
           ([Finite 0; NegInf; Finite 0], [PosInf; PosInf; Finite 1000]) None.

(** Two objects of the generalized exponential class with different
    stored parameters, [y_0 = 1] and [y_0 = 2]. *)
Definition gen_exp_from_1 : Growth :=
  mkGrowth ExponentialGeneralizedGrowth [("a", 1); ("p", 0)]
           no_bounds (Some 1).

Definition gen_exp_from_2 : Growth :=
  mkGrowth ExponentialGeneralizedGrowth [("a", 3); ("p", 2)]
           no_bounds (Some 2).

(** ** The curves the closed-form classes compute

    The value of each formula at one time, as a real number. *)

(** logistic_growth.py, line 68. *)
Definition logistic_curve (a t_0 K ti : R) : R :=
  K / (1 + exp (- a * (ti - t_0))).

(** richard_growth.py, line 89, with the exponent [- 1 / b]. *)
Definition richards_curve (a b d K ti : R) : R :=
  K * Rpower (1 + exp (d - a * b * ti)) (- 1 / b).

(** ** The Logistic and Richards formulas in binary64 arithmetic

    The same two expressions on IEEE double precision numbers, each
    operation rounded.  The exponential and the power are numpy's and are
    taken as arguments. *)

(** logistic_growth.py, line 68. *)
Definition LogisticGrowth_formula_binary64
  (fexp : float -> float) (a t_0 K t : float) : float :=
  (K / (1 + fexp (- a * (t - t_0))))%float.

(** richard_growth.py, line 89. *)
Definition RichardGrowth_formula_binary64
  (fexp : float -> float) (fpow : float -> float -> float)
  (a b d K t : float) : float :=
  (K * fpow (1 + fexp (d - a * b * t)) (- 1 / b))%float.

(** Stand-ins with correct rounding at the arguments used: the double
    nearest to exp(-1), returned for the argument -1, and the power with
    exponent -1 as the correctly rounded reciprocal. *)
Definition exp_at_minus_1 (x : float) : float := 0x1.78b56362cef38p-2%float.

Definition pow_minus_1 (x y : float) : float := (1 / x)%float.

(** ** Dictionaries and key sets *)

Lemma subsetb_spec (l1 l2 : list string) :
  Dict.subsetb l1 l2 = true <-> (forall x, In x l1 -> In x l2).
Proof.
  unfold Dict.subsetb. rewrite forallb_forall. split; intros H x Hx.
  - apply H in Hx. apply existsb_exists in Hx as [y [Hy E]].
    apply String.eqb_eq in E. now subst.
  - apply existsb_exists. exists x. split; [now apply H | apply String.eqb_refl].
Qed.

Lemma set_eqb_spec (l1 l2 : list string) :
  Dict.set_eqb l1 l2 = true <-> Dict.same_set l1 l2.
Proof.
  unfold Dict.set_eqb, Dict.same_set.
  rewrite andb_true_iff, !subsetb_spec. split.
  - intros [H1 H2] x. split; auto.
  - intros H. split; intros x Hx; now apply H.
Qed.

Lemma set_eqb_false (l1 l2 : list string) :
  Dict.set_eqb l1 l2 = false <-> ~ Dict.same_set l1 l2.
Proof.
  rewrite <- set_eqb_spec. destruct (Dict.set_eqb l1 l2); split; intros H;
    congruence.
Qed.

Lemma get_in_keys (d : Dict.t) (k : string) :
  In k (Dict.keys d) -> exists v, Dict.get d k = Ok v.
Proof.
  induction d as [|[k' v'] d IH]; simpl; [tauto|].
  intros H. destruct (String.eqb k k') eqn:E; [now exists v'|].
  destruct H as [H|H]; [|now apply IH].
  subst. now rewrite String.eqb_refl in E.
Qed.

Lemma mapM_length {A B} (f : A -> result B) (l : list A) (r : list B) :
  mapM f l = Ok r -> List.length r = List.length l.
Proof.
  revert r. induction l as [|x xs IH]; simpl; intros r H.
  - now inversion H.
  - destruct (f x); simpl in H; [|discriminate].
    destruct (mapM f xs); simpl in H; [|discriminate].
    inversion H. simpl. f_equal. now apply IH.
Qed.

Lemma mapM_get_ok (d : Dict.t) (sig : list string) :
  (forall k, In k sig -> In k (Dict.keys d)) ->
  exists vs, mapM (Dict.get d) sig = Ok vs.
Proof.
  induction sig as [|k sig IH]; intros H; simpl.
  - now exists [].
  - destruct (get_in_keys d k) as [v Hv]; [apply H; now left|].
    destruct IH as [vs Hvs]; [intros; apply H; now right|].
    rewrite Hv, Hvs. simpl. now exists (v :: vs).
Qed.

(** ** The resolution protocol *)

Lemma check_params_run (self : Growth) :
  _check_params self =
  (if Dict.set_eqb (Dict.keys (params self)) (params_signature self)
   then Ok tt else Err (AssertionError SignatureCheck), self).
Proof.
  unfold _check_params, bind, get_self.
  now destruct (Dict.set_eqb _ _).
Qed.

Lemma resolve_override (args : list R) (self : Growth) :
  args <> [] ->
  _get_compute_parameters args self =
  (if (List.length args =? List.length (params_signature self))%nat
   then Ok args else Err (AssertionError ArgumentCount), self).
Proof.
  intros H. unfold _get_compute_parameters, bind, get_self.
  destruct args as [|x xs]; [congruence|]. simpl (0 <? _)%nat. cbv iota.
  now destruct (_ =? _)%nat.
Qed.

Lemma resolve_stored (self : Growth) :
  _get_compute_parameters [] self =
  (if Dict.set_eqb (Dict.keys (params self)) (params_signature self)
   then mapM (Dict.get (params self)) (params_signature self)
   else Err (AssertionError SignatureCheck), self).
Proof.
  unfold _get_compute_parameters, bind, get_self.
  change (0 <? List.length (@nil R))%nat with false. cbv iota beta.
  rewrite check_params_run. now destruct (Dict.set_eqb _ _).
Qed.

Lemma resolve_stored_ok (self : Growth) :
  Dict.same_set (Dict.keys (params self)) (params_signature self) ->
  exists ps, _get_compute_parameters [] self = (Ok ps, self) /\
             List.length ps = List.length (params_signature self).
Proof.
  intros H. rewrite resolve_stored.
  destruct (mapM_get_ok (params self) (params_signature self)) as [vs Hvs].
  { intros k Hk. now apply H. }
  apply set_eqb_spec in H. rewrite H. exists vs. split; [now rewrite Hvs|].
  now apply mapM_length in Hvs.
Qed.

Lemma resolve_state (args : list R) (self : Growth) :
  snd (_get_compute_parameters args self) = self.
Proof.
  destruct args as [|x xs].
  - now rewrite resolve_stored.
  - now rewrite resolve_override.
Qed.

Lemma resolve_length (args ps : list R) (self : Growth) :
  fst (_get_compute_parameters args self) = Ok ps ->
  List.length ps = List.length (params_signature self).
Proof.
  destruct args as [|x xs].
  - rewrite resolve_stored. simpl. destruct (Dict.set_eqb _ _); [|discriminate].
    apply mapM_length.
  - rewrite resolve_override by discriminate.
    destruct (Nat.eqb (List.length (x :: xs)) _) eqn:E;
      cbn [fst]; [|discriminate].
    intros H. inversion H. subst. now apply Nat.eqb_eq.
Qed.

Lemma bind_resolve {B} (args : list R) (k : list R -> M B) (self : Growth) :
  (ps <- _get_compute_parameters args ;; k ps) self =
  match fst (_get_compute_parameters args self) with
  | Ok ps => k ps self
  | Err e => (Err e, self)
  end.
Proof.
  unfold bind. pose proof (resolve_state args self) as Hs.
  destruct (_get_compute_parameters args self) as [r s]. simpl in *.
  subst s. now destruct r.
Qed.

Lemma require_y_0_run (self : Growth) :
  require_y_0 self =
  (match y_0 self with Some v => Ok v | None => Err Y0Unset end, self).
Proof.
  unfold require_y_0, bind, get_self. now destruct (y_0 self).
Qed.

Lemma bind_require_y_0 {B} (k : R -> M B) (self : Growth) :
  (y0 <- require_y_0 ;; k y0) self =
  match y_0 self with
  | Some v => k v self
  | None => (Err Y0Unset, self)
  end.
Proof.
  unfold bind. rewrite require_y_0_run. now destruct (y_0 self).
Qed.

(** Case analysis on the class of [self], up to the test of [y_0]. *)
Ltac by_class self :=
  destruct (cls self) eqn:?;
  unfold LogisticGrowth_compute_y, RichardGrowth_compute_y,
         ExponentialGeneralizedGrowth_compute_y,
         LogisticSigmoidGrowth_compute_y;
  rewrite ?bind_require_y_0.

Ltac case_y_0 self :=
  try match goal with
      | |- context [y_0 self] => destruct (y_0 self) as [y0|] eqn:?
      end.

Section Properties.

Variable curve_fit :
  (list R -> list R -> result (list R)) ->
  list R -> list R -> Bounds -> list R -> result (list R).

Variable solve_ivp :
  (R -> list R -> result (list R)) ->
  R * R -> list R -> list R -> result (list (list R)).


Lemma compute_y_dispatch (t args : list R) (self : Growth) :
  compute_y solve_ivp t args self =
  match cls self with
  | LogisticGrowth => LogisticGrowth_compute_y t args self
  | RichardGrowth => RichardGrowth_compute_y t args self
  | ExponentialGeneralizedGrowth =>
      ExponentialGeneralizedGrowth_compute_y t args self
  | LogisticSigmoidGrowth =>
      LogisticSigmoidGrowth_compute_y solve_ivp t args self
  end.
Proof.
  unfold compute_y, bind, get_self. now destruct (cls self).
Qed.

(** [compute_y] never assigns to a field of [self]. *)
Lemma compute_y_state (t args : list R) (self : Growth) :
  snd (compute_y solve_ivp t args self) = self.
Proof.
  rewrite compute_y_dispatch.
  by_class self; case_y_0 self;
    try reflexivity;
    rewrite bind_resolve;
    destruct (fst (_get_compute_parameters args self)) as [ps|e];
    try reflexivity;
    destruct ps as [|? [|? [|? [|? [|? ?]]]]]; try reflexivity.
  unfold bind, lift, ret. destruct (PyNum.max t); [|reflexivity].
  now destruct (solve_ivp _ _ _ _).
Qed.

(** An error raised while resolving the parameters is the error of
    [compute_y], once [y_0] has passed its test. *)
Lemma compute_y_resolve_error (t args : list R) (self : Growth) (e : error) :
  (needs_y_0 (cls self) = true -> y_0 self <> None) ->
  fst (_get_compute_parameters args self) = Err e ->
  compute_y solve_ivp t args self = (Err e, self).
Proof.
  intros Hy He. rewrite compute_y_dispatch.
  by_class self; case_y_0 self; try (now destruct Hy);
    rewrite bind_resolve, He; reflexivity.
Qed.

(** A value returned by [compute_y] means the parameters were resolved. *)
Lemma compute_y_ok_resolved (t args ys : list R) (self : Growth) :
  fst (compute_y solve_ivp t args self) = Ok ys ->
  exists ps, fst (_get_compute_parameters args self) = Ok ps.
Proof.
  rewrite compute_y_dispatch.
  by_class self; case_y_0 self;
    try discriminate;
    rewrite bind_resolve;
    destruct (fst (_get_compute_parameters args self)) as [ps|e];
    try discriminate; intros _; now exists ps.
Qed.

(** *** Where an error of [compute_y] comes from *)

Lemma div_error (x y : R) (e : error) :
  PyNum.div x y = Err e -> e = ZeroDivisionError.
Proof.
  unfold PyNum.div. destruct (Req_dec_T y 0); congruence.
Qed.

Lemma pow_error (x y : R) (e : error) :
  PyNum.pow x y = Err e -> e = ZeroDivisionError \/ e = NotARealNumber.
Proof.
  unfold PyNum.pow.
  repeat match goal with
         | |- context [if ?c then _ else _] => destruct c
         end; intros H; inversion H; auto.
Qed.

Lemma mapM_error {A B} (f : A -> result B) (l : list A) (e : error) :
  mapM f l = Err e -> exists x, In x l /\ f x = Err e.
Proof.
  induction l as [|x xs IH]; simpl; [discriminate|].
  destruct (f x) as [y|e'] eqn:Ex; simpl.
  - destruct (mapM f xs) as [ys|e'']; simpl; [discriminate|].
    intros H. inversion H. subst.
    destruct IH as [x' [Hin Hx']]; [reflexivity|]. exists x'. auto.
  - intros H. inversion H. subst. exists x. auto.
Qed.

Lemma compute_y_error_origin (t args : list R) (self : Growth) (e : error) :
  fst (compute_y solve_ivp t args self) = Err e ->
  e = Y0Unset \/
  fst (_get_compute_parameters args self) = Err e \/
  arithmetic_error e \/
  (exists rhs span y0, solve_ivp rhs span y0 t = Err e).
Proof.
  unfold arithmetic_error. rewrite compute_y_dispatch.
  by_class self; case_y_0 self;
    try (cbn [fst]; intros H; inversion H; now auto);
    rewrite bind_resolve;
    destruct (fst (_get_compute_parameters args self)) as [ps|e'];
    try (cbn [fst]; intros H; inversion H; now auto);
    destruct ps as [|? [|? [|? [|? [|? ?]]]]];
    try (cbn [fst raise]; intros H; inversion H; now auto 8);
    unfold lift; cbn [fst]; intros H.
  - apply mapM_error in H as [x [_ H]]. apply div_error in H. auto.
  - destruct (PyNum.div (-1) r0) eqn:Ed; simpl in H.
    + apply mapM_error in H as [x [_ H]].
      destruct (PyNum.pow _ _) eqn:Ep; simpl in H; [discriminate|].
      inversion H. subst. apply pow_error in Ep. tauto.
    + inversion H. subst. apply div_error in Ed. auto.
  - destruct (PyNum.div 1 y0) eqn:Ed; simpl in H;
      [|inversion H; subst; apply div_error in Ed; now auto].
    destruct (PyNum.pow _ _) eqn:Ep; simpl in H;
      [|inversion H; subst; apply pow_error in Ep; tauto].
    destruct (PyNum.div (-1) _) eqn:Ed2; simpl in H;
      [|inversion H; subst; apply div_error in Ed2; now auto].
    apply mapM_error in H as [x [_ H]]. apply pow_error in H. tauto.
  - unfold bind, lift, ret in H.
    destruct t as [|t1 ts]; simpl in H; [inversion H; now auto 8|].
    destruct (solve_ivp _ _ _ _) eqn:Es; simpl in H; [discriminate|].
    inversion H. subst. right. right. right. eauto.
Qed.

(** *** [fit] step by step *)

Lemma fit_run (t y p0 : list R) (self : Growth) :
  fit curve_fit solve_ivp t y p0 self =
  match fst (_get_compute_parameters [] self) with
  | Err e => (Err e, self)
  | Ok start =>
      match curve_fit (forward solve_ivp self) t y (bounds self) start with
      | Err e => (Err e, self)
      | Ok fit_params => fit_loop fit_params (Dict.keys (params self)) 0 self
      end
  end.
Proof.
  unfold fit. rewrite bind_resolve.
  destruct (fst (_get_compute_parameters [] self)) as [start|e]; [|reflexivity].
  unfold bind, get_self, lift.
  now destruct (curve_fit _ _ _ _ _).
Qed.

Lemma fit_loop_error (fp : list R) (ks : list string) (i : nat)
  (self : Growth) (e : error) :
  fst (fit_loop fp ks i self) = Err e -> e = IndexError.
Proof.
  revert i self. induction ks as [|k ks IH]; simpl; intros i self.
  - discriminate.
  - destruct (nth_error fp i).
    + unfold bind, set_param. apply IH.
    + unfold raise. simpl. congruence.
Qed.

(** ** Signature check (C4) *)

Lemma init_run (v : variant) (p : Dict.t) (b : Bounds) :
  init v p b =
  if Dict.set_eqb (Dict.keys p) (signature v)
  then Ok (mkGrowth v p b None)
  else Err (AssertionError SignatureCheck).
Proof.
  unfold init. rewrite check_params_run. simpl.
  unfold params_signature. simpl. now destruct (Dict.set_eqb _ _).
Qed.

Lemma resolve_stored_mismatch (self : Growth) :
  fst (_get_compute_parameters [] self) = Err (AssertionError SignatureCheck)
  <-> ~ Dict.same_set (Dict.keys (params self)) (params_signature self).
Proof.
  rewrite <- set_eqb_false, resolve_stored. cbn [fst].
  destruct (Dict.set_eqb _ _) eqn:E; split; try congruence.
  intros H. apply mapM_error in H as [k [_ H]].
  exfalso. clear E. induction (params self) as [|[k' v'] d IH]; simpl in H.
  - discriminate.
  - destruct (String.eqb k k'); [discriminate | auto].
Qed.

(** C4.  The signature-mismatch AssertionError is raised exactly when the
    key set of the parameters differs from the signature of the variant:
    by the constructor, and again by every resolution of the parameters
    from the stored mapping (no override), in a forward evaluation and in
    [fit] alike; a resolution from an explicit override does not run the
    check. *)
Theorem signature_mismatch_raised_iff :
  (forall v p b,
      init v p b = Err (AssertionError SignatureCheck) <->
      ~ Dict.same_set (Dict.keys p) (signature v)) /\
  (forall v p b,
      init v p b = Ok (mkGrowth v p b None) <->
      Dict.same_set (Dict.keys p) (signature v)) /\
  (forall self,
      fst (_get_compute_parameters [] self) =
        Err (AssertionError SignatureCheck) <->
      ~ Dict.same_set (Dict.keys (params self)) (params_signature self)) /\
  (forall self args,
      args <> [] ->
      fst (_get_compute_parameters args self) <>
        Err (AssertionError SignatureCheck)) /\
  (forall self t,
      (needs_y_0 (cls self) = true -> y_0 self <> None) ->
      (forall rhs span y0,
          solve_ivp rhs span y0 t <> Err (AssertionError SignatureCheck)) ->
      (compute_y solve_ivp t [] self =
         (Err (AssertionError SignatureCheck), self) <->
       ~ Dict.same_set (Dict.keys (params self)) (params_signature self))) /\
  (forall self t y p0,
      (forall f start,
          curve_fit f t y (bounds self) start <>
            Err (AssertionError SignatureCheck)) ->
      (fit curve_fit solve_ivp t y p0 self =
         (Err (AssertionError SignatureCheck), self) <->
       ~ Dict.same_set (Dict.keys (params self)) (params_signature self))).
Proof.
  split; [|split; [|split; [|split; [|split]]]].
  - intros v p b. rewrite init_run, <- set_eqb_false.
    destruct (Dict.set_eqb _ _); split; congruence.
  - intros v p b. rewrite init_run, <- set_eqb_spec.
    destruct (Dict.set_eqb _ _); split; congruence.
  - apply resolve_stored_mismatch.
  - intros self args Ha. rewrite resolve_override by assumption. cbn [fst].
    destruct (Nat.eqb _ _); congruence.
  - intros self t Hy Hs. split.
    + intros Hc. apply resolve_stored_mismatch.
      assert (He : fst (compute_y solve_ivp t [] self) =
                   Err (AssertionError SignatureCheck)) by now rewrite Hc.
      apply compute_y_error_origin in He
        as [He | [He | [[He | [He | He]] | [rhs [span [y0 He]]]]]];
        try discriminate; try assumption.
      now apply Hs in He.
    + intros Hm. apply compute_y_resolve_error; [assumption|].
      now apply resolve_stored_mismatch.
  - intros self t y p0 Hcf. split.
    + intros Hf. apply resolve_stored_mismatch. rewrite fit_run in Hf.
      destruct (fst (_get_compute_parameters [] self)) as [start|e];
        [|congruence].
      destruct (curve_fit _ _ _ _ _) as [fp|e] eqn:Ec.
      * assert (He : fst (fit_loop fp (Dict.keys (params self)) 0 self) =
                     Err (AssertionError SignatureCheck)) by now rewrite Hf.
        apply fit_loop_error in He. discriminate.
      * inversion Hf. subst. exfalso. exact (Hcf _ _ Ec).
    + intros Hm. rewrite fit_run.
      apply resolve_stored_mismatch in Hm. now rewrite Hm.
Qed.

(** ** Explicit overrides (C5, C10) and the test of [y_0] (C6) *)

Lemma signature_nonempty (v : variant) : signature v <> [].
Proof. destruct v; discriminate. Qed.

Lemma full_override_resolves (args : list R) (self : Growth) :
  List.length args = List.length (params_signature self) ->
  _get_compute_parameters args self = (Ok args, self).
Proof.
  intros H. rewrite resolve_override.
  - apply Nat.eqb_eq in H. now rewrite H.
  - intros ->. unfold params_signature in H.
    destruct (cls self); discriminate.
Qed.

(** C5, as amended.  Once [y_0] has passed its test (it is not tested for
    the Logistic and Richards classes), a non-empty override whose length
    differs from the length of the signature makes [compute_y] fail with
    the argument-count AssertionError, and [self] is left as it was; a
    non-empty override with which [compute_y] returns has exactly the
    length of the signature. *)
Theorem override_length_checked (self : Growth) (t args : list R) :
  args <> [] ->
  (needs_y_0 (cls self) = true -> y_0 self <> None) ->
  (List.length args <> List.length (params_signature self) ->
   compute_y solve_ivp t args self = (Err (AssertionError ArgumentCount), self))
  /\
  (forall ys, fst (compute_y solve_ivp t args self) = Ok ys ->
              List.length args = List.length (params_signature self)).
Proof.
  intros Ha Hy. split.
  - intros Hl. apply compute_y_resolve_error; [assumption|].
    rewrite resolve_override by assumption.
    apply Nat.eqb_neq in Hl. now rewrite Hl.
  - intros ys Hok. apply compute_y_ok_resolved in Hok as [ps Hps].
    rewrite resolve_override in Hps by assumption.
    destruct (Nat.eqb _ _) eqn:E; [|discriminate]. now apply Nat.eqb_eq.
Qed.

(** C6.  For the two classes that read [y_0], [compute_y] raises the
    exception of the unset [y_0] whatever the times, the override and the
    stored parameters are, and [self] is left as it was. *)
Theorem unset_y_0_raised_first (self : Growth) (t args : list R) :
  needs_y_0 (cls self) = true ->
  y_0 self = None ->
  compute_y solve_ivp t args self = (Err Y0Unset, self).
Proof.
  intros Hn Hy. rewrite compute_y_dispatch.
  by_class self; try discriminate; now rewrite Hy.
Qed.

(** With a full-length override the result of [compute_y] is a function of
    the class, of [y_0], of the times and of the override. *)
Lemma compute_y_full_override (g1 g2 : Growth) (t args : list R) :
  cls g1 = cls g2 ->
  y_0 g1 = y_0 g2 ->
  List.length args = List.length (signature (cls g1)) ->
  fst (compute_y solve_ivp t args g1) = fst (compute_y solve_ivp t args g2).
Proof.
  intros Hc Hy Hl.
  assert (R1 : _get_compute_parameters args g1 = (Ok args, g1))
    by now apply full_override_resolves.
  assert (R2 : _get_compute_parameters args g2 = (Ok args, g2)).
  { apply full_override_resolves. unfold params_signature. now rewrite <- Hc. }
  rewrite !compute_y_dispatch, <- Hc.
  destruct (cls g1);
    unfold LogisticGrowth_compute_y, RichardGrowth_compute_y,
           ExponentialGeneralizedGrowth_compute_y,
           LogisticSigmoidGrowth_compute_y;
    rewrite ?bind_require_y_0, <- ?Hy;
    try (destruct (y_0 g1) as [y0|]; [|reflexivity]);
    rewrite !bind_resolve, R1, R2; cbn [fst];
    destruct args as [|? [|? [|? [|? [|? ?]]]]]; try reflexivity.
  unfold bind, lift, ret. destruct (PyNum.max t); [|reflexivity].
  now destruct (solve_ivp _ _ _ _).
Qed.

(** C10, as amended.  With a full-length override, [compute_y] of a
    closed-form class returns the same result on two objects of that class
    that hold different stored parameters (and bounds), provided they hold
    the same [y_0] when the class reads it (the generalized exponential);
    both objects are left as they were. *)
Theorem override_ignores_stored_params (g1 g2 : Growth) (t args : list R) :
  cls g1 = cls g2 ->
  closed_form (cls g1) = true ->
  (needs_y_0 (cls g1) = true -> y_0 g1 = y_0 g2) ->
  List.length args = List.length (signature (cls g1)) ->
  fst (compute_y solve_ivp t args g1) = fst (compute_y solve_ivp t args g2) /\
  snd (compute_y solve_ivp t args g1) = g1 /\
  snd (compute_y solve_ivp t args g2) = g2.
Proof.
  intros Hc Hf Hy Hl. split; [|split; apply compute_y_state].
  destruct (needs_y_0 (cls g1)) eqn:En.
  - apply compute_y_full_override; auto.
  - rewrite <- (compute_y_full_override
                  (mkGrowth (cls g1) (params g1) (bounds g1) (y_0 g2)) g2)
      by (simpl; auto).
    assert (R1 : _get_compute_parameters args g1 = (Ok args, g1))
      by now apply full_override_resolves.
    assert (R2 : forall o,
               _get_compute_parameters args
                 (mkGrowth (cls g1) (params g1) (bounds g1) o) =
               (Ok args, mkGrowth (cls g1) (params g1) (bounds g1) o)).
    { intros o. now apply full_override_resolves. }
    rewrite !compute_y_dispatch. cbn [cls].
    destruct (cls g1); try discriminate;
      unfold LogisticGrowth_compute_y, RichardGrowth_compute_y;
      rewrite !bind_resolve, R1, R2; cbn [fst];
      destruct args as [|? [|? [|? [|? [|? ?]]]]]; reflexivity.
Qed.

(** ** Failure of the optimizer (C3) *)

(** C3.  When the optimizer raises an exception (no convergence, or a
    starting point outside the bounds), [fit] raises that exception and
    [self], hence every entry of its parameters, is as it was before the
    call. *)
Theorem failed_fit_keeps_params (self : Growth) (t y p0 start : list R)
  (e : error) :
  fst (_get_compute_parameters [] self) = Ok start ->
  curve_fit (forward solve_ivp self) t y (bounds self) start = Err e ->
  fit curve_fit solve_ivp t y p0 self = (Err e, self).
Proof.
  intros Hs He. now rewrite fit_run, Hs, He.
Qed.

(** [fit] does not read its argument [p0]. *)
Lemma fit_ignores_p0 (self : Growth) (t y p0 : list R) :
  fit curve_fit solve_ivp t y p0 self = fit curve_fit solve_ivp t y [] self.
Proof. reflexivity. Qed.

(** ** The formulas (C7, C8) *)

Lemma div_ok (x y : R) : y <> 0 -> PyNum.div x y = Ok (x / y).
Proof.
  intros H. unfold PyNum.div. now destruct (Req_dec_T y 0).
Qed.

Lemma pow_pos (x y : R) : 0 < x -> PyNum.pow x y = Ok (Rpower x y).
Proof.
  intros H. unfold PyNum.pow. now destruct (Rlt_dec 0 x).
Qed.

Lemma mapM_ok_map {A B} (f : A -> result B) (g : A -> B) (l : list A) :
  (forall x, f x = Ok (g x)) -> mapM f l = Ok (map g l).
Proof.
  intros H. induction l as [|x xs IH]; simpl; [reflexivity|].
  now rewrite H, IH.
Qed.


Lemma one_plus_exp_pos (x : R) : 0 < 1 + exp x.
Proof. pose proof (exp_pos x). lra. Qed.

Lemma Rpower_minus_one (x : R) : 0 < x -> Rpower x (- 1 / 1) = / x.
Proof.
  intros H. replace (- 1 / 1) with (- (1)) by field.
  now rewrite Rpower_Ropp, Rpower_1.
Qed.

Lemma Rpower_inv_base (x y : R) :
  0 < x -> Rpower (1 / x) (y - 1) = Rpower x (1 - y).
Proof.
  intros H. unfold Rpower. f_equal.
  replace (1 / x) with (/ x) by (field; lra).
  rewrite ln_Rinv by assumption. ring.
Qed.

(** The Logistic formula at a = 1, t_0 = 0, K = 100. *)
Lemma logistic_at_unit_rate (self : Growth) (t : list R) :
  cls self = LogisticGrowth ->
  fst (compute_y solve_ivp t [1; 0; 100] self) =
  Ok (map (fun ti => 100 / (1 + exp (- ti))) t).
Proof.
  intros Hc. rewrite compute_y_dispatch, Hc.
  unfold LogisticGrowth_compute_y.
  rewrite bind_resolve, full_override_resolves
    by (unfold params_signature; now rewrite Hc).
  cbn [fst lift]. apply mapM_ok_map. intros ti.
  rewrite div_ok by (pose proof (one_plus_exp_pos (- (1) * (ti - 0))); lra).
  replace (- (1) * (ti - 0)) with (- ti) by ring. reflexivity.
Qed.

(** The Richards formula at a = 1, b = 1, d = 0, K = 100. *)
Lemma richards_at_unit_shape (self : Growth) (t : list R) :
  cls self = RichardGrowth ->
  fst (compute_y solve_ivp t [1; 1; 0; 100] self) =
  Ok (map (fun ti => 100 / (1 + exp (- ti))) t).
Proof.
  intros Hc. rewrite compute_y_dispatch, Hc.
  unfold RichardGrowth_compute_y.
  rewrite bind_resolve, full_override_resolves
    by (unfold params_signature; now rewrite Hc).
  cbn [fst lift]. rewrite div_ok by lra. cbn [bind_result].
  apply mapM_ok_map. intros ti.
  rewrite pow_pos by apply one_plus_exp_pos. cbn [bind_result].
  rewrite Rpower_minus_one by apply one_plus_exp_pos.
  replace (0 - 1 * 1 * ti) with (- ti) by ring. reflexivity.
Qed.

(** C7, as amended.  Over the real numbers, at every sequence of times,
    the Richards class called with a = 1, b = 1, d = 0, K = 100 and the
    Logistic class called with a = 1, t_0 = 0, K = 100 compute the same
    law, 100 / (1 + exp (- t)) at each time.  (In binary64 arithmetic the
    two results agree up to rounding only.) *)
Theorem richards_reduces_to_logistic (gR gL : Growth) (t : list R) :
  cls gR = RichardGrowth ->
  cls gL = LogisticGrowth ->
  fst (compute_y solve_ivp t [1; 1; 0; 100] gR) =
    fst (compute_y solve_ivp t [1; 0; 100] gL) /\
  fst (compute_y solve_ivp t [1; 0; 100] gL) =
    Ok (map (fun ti => 100 / (1 + exp (- ti))) t).
Proof.
  intros HR HL.
  now rewrite (richards_at_unit_shape gR t HR), (logistic_at_unit_rate gL t HL).
Qed.

Lemma gen_exp_run (self : Growth) (t args : list R) (y0 a p : R) :
  cls self = ExponentialGeneralizedGrowth ->
  y_0 self = Some y0 ->
  0 < y0 ->
  p <> 1 ->
  fst (_get_compute_parameters args self) = Ok [a; p] ->
  fst (compute_y solve_ivp t args self) =
  mapM (fun ti => PyNum.pow ((1 - p) * a * ti + Rpower y0 (1 - p))
                            (1 / (1 - p))) t.
Proof.
  intros Hc Hy Hpos Hp Hr. rewrite compute_y_dispatch, Hc.
  unfold ExponentialGeneralizedGrowth_compute_y.
  rewrite bind_require_y_0, Hy, bind_resolve, Hr. cbn [fst lift].
  rewrite div_ok by lra. cbn [bind_result].
  rewrite pow_pos by (apply Rdiv_lt_0_compat; lra). cbn [bind_result].
  rewrite div_ok by lra. cbn [bind_result].
  rewrite Rpower_inv_base by assumption.
  replace (- 1 / (p - 1)) with (1 / (1 - p)) by (field; lra).
  reflexivity.
Qed.

Lemma gen_exp_at_zero (y0 a p : R) :
  0 < y0 -> p <> 1 ->
  PyNum.pow ((1 - p) * a * 0 + Rpower y0 (1 - p)) (1 / (1 - p)) = Ok y0.
Proof.
  intros Hpos Hp.
  replace ((1 - p) * a * 0 + Rpower y0 (1 - p)) with (Rpower y0 (1 - p))
    by ring.
  rewrite pow_pos by apply exp_pos.
  rewrite Rpower_mult.
  replace ((1 - p) * (1 / (1 - p))) with 1 by (field; lra).
  now rewrite Rpower_1.
Qed.


(** ** The integrated variant (C9) *)

Lemma fold_Rmax_spec (xs : list R) (x : R) :
  (In (fold_left Rmax xs x) (x :: xs)) /\
  (forall z, In z (x :: xs) -> z <= fold_left Rmax xs x).
Proof.
  revert x. induction xs as [|w xs IH]; intros x; simpl.
  - split; [now left|]. intros z [->|[]]. lra.
  - destruct (IH (Rmax x w)) as [Hin Hle]. split.
    + simpl in Hin. destruct Hin as [Hin|Hin]; [|now auto].
      rewrite <- Hin. unfold Rmax. destruct (Rle_dec x w); auto.
    + intros z Hz.
      assert (Hx : x <= fold_left Rmax xs (Rmax x w)).
      { eapply Rle_trans; [apply Rmax_l|]. apply Hle. now left. }
      assert (Hw : w <= fold_left Rmax xs (Rmax x w)).
      { eapply Rle_trans; [apply Rmax_r|]. apply Hle. now left. }
      destruct Hz as [->|[->|Hz]]; auto. apply Hle. now right.
Qed.

(** [max(t)] is an element of [t] that bounds every element. *)
Lemma max_spec (t : list R) (m : R) :
  PyNum.max t = Ok m -> In m t /\ (forall z, In z t -> z <= m).
Proof.
  destruct t as [|x xs]; simpl; [discriminate|].
  intros H. inversion H. apply fold_Rmax_spec.
Qed.

Lemma sigmoid_run
  (self : Growth) (t1 : R) (ts args : list R) (y0 a c K : R) :
  cls self = LogisticSigmoidGrowth ->
  y_0 self = Some y0 ->
  fst (_get_compute_parameters args self) = Ok [a; c; K] ->
  compute_y solve_ivp (t1 :: ts) args self =
  (match solve_ivp (dydt a c K) (0, fold_left Rmax ts t1) [y0] (t1 :: ts) with
   | Ok out => Ok (List.concat out)
   | Err e => Err e
   end, self).
Proof.
  intros Hc Hy Hr. rewrite compute_y_dispatch, Hc.
  unfold LogisticSigmoidGrowth_compute_y.
  rewrite bind_require_y_0, Hy, bind_resolve, Hr.
  unfold bind, lift, ret. cbn [PyNum.max].
  now destruct (solve_ivp _ _ _ _).
Qed.

(** ** A successful [fit] *)

Lemma set_after_prefix (pre suf : Dict.t) (k : string) (v : R) :
  ~ In k (Dict.keys pre) ->
  Dict.set (pre ++ suf) k v = pre ++ Dict.set suf k v.
Proof.
  induction pre as [|[k' v'] pre IH]; simpl; intros H; [reflexivity|].
  destruct (String.eqb k k') eqn:E.
  - apply String.eqb_eq in E. subst. tauto.
  - f_equal. apply IH. tauto.
Qed.

(** The loop writes the value at position i under the i-th key of the
    dictionary, in insertion order. *)
Lemma fit_loop_run (fp : list R) (v : variant) (b : Bounds) (y : option R) :
  forall (suf pre : Dict.t) (i : nat),
    NoDup (Dict.keys (pre ++ suf)) ->
    (List.length suf + i <= List.length fp)%nat ->
    fit_loop fp (Dict.keys suf) i (mkGrowth v (pre ++ suf) b y) =
    (Ok tt, mkGrowth v (pre ++ combine (Dict.keys suf) (skipn i fp)) b y).
Proof.
  induction suf as [|[k x] suf IH]; intros pre i Hnd Hlen.
  - reflexivity.
  - simpl in Hlen. cbn [Dict.keys map fst fit_loop].
    destruct (nth_error fp i) as [w|] eqn:En.
    2:{ apply nth_error_None in En. lia. }
    assert (Hsk : skipn i fp = w :: skipn (S i) fp).
    { clear - En. revert fp En. induction i as [|i IHi]; intros [|z fp] En;
        simpl in *; try discriminate.
      - now inversion En.
      - now apply IHi. }
    assert (Hfresh : ~ In k (Dict.keys pre)).
    { unfold Dict.keys in Hnd. rewrite map_app in Hnd. simpl in Hnd.
      apply NoDup_remove_2 in Hnd. intros Hin. apply Hnd.
      apply in_or_app. now left. }
    unfold bind, set_param. cbn [cls params bounds y_0].
    rewrite set_after_prefix by assumption. simpl Dict.set.
    rewrite String.eqb_refl.
    change (pre ++ (k, w) :: suf) with (pre ++ [(k, w)] ++ suf).
    rewrite app_assoc. rewrite IH.
    + rewrite Hsk. simpl. now rewrite <- app_assoc.
    + unfold Dict.keys in *. rewrite <- app_assoc.
      rewrite map_app in *. simpl in *. exact Hnd.
    + lia.
Qed.

(** When the optimizer returns, [fit] pairs the keys of the dictionary, in
    insertion order, with the fitted values, in the order of the
    optimizer. *)
Lemma fit_success_run (self : Growth) (t y p0 start fp : list R) :
  NoDup (Dict.keys (params self)) ->
  fst (_get_compute_parameters [] self) = Ok start ->
  curve_fit (forward solve_ivp self) t y (bounds self) start = Ok fp ->
  (List.length (params self) <= List.length fp)%nat ->
  fit curve_fit solve_ivp t y p0 self =
  (Ok tt, mkGrowth (cls self) (combine (Dict.keys (params self)) fp)
                   (bounds self) (y_0 self)).
Proof.
  intros Hnd Hs Hc Hl. rewrite fit_run, Hs, Hc.
  destruct self as [v d b y0]. cbn [cls params bounds y_0] in *.
  apply (fit_loop_run fp v b y0 d [] 0%nat); [assumption | lia].
Qed.

(** A dictionary built in signature order receives each fitted value
    under the name at the same position of the signature. *)
Lemma fit_in_signature_order (self : Growth) (t y p0 start fp : list R) :
  Dict.keys (params self) = params_signature self ->
  fst (_get_compute_parameters [] self) = Ok start ->
  curve_fit (forward solve_ivp self) t y (bounds self) start = Ok fp ->
  List.length fp = List.length (params_signature self) ->
  fit curve_fit solve_ivp t y p0 self =
  (Ok tt, mkGrowth (cls self) (combine (params_signature self) fp)
                   (bounds self) (y_0 self)).
Proof.
  intros Hk Hs Hc Hl. rewrite <- Hk.
  apply (fit_success_run self t y p0 start fp); try assumption.
  - rewrite Hk. unfold params_signature.
    destruct (cls self); simpl;
      repeat (constructor; [simpl; intuition discriminate|]); constructor.
  - rewrite Hl, <- Hk. unfold Dict.keys. rewrite length_map. lia.
Qed.

End Properties.

(** ** [fit] on concrete objects (C1, C2) *)

(** C1.  The optimizer returns the fitted values in signature order
    (a = 2, t_0 = 5, K = 80).  On an object whose dictionary was built in
    the order K, a, t_0, [fit] stores them by position in the dictionary:
    K = 2, a = 5, t_0 = 80, so that the name a does not receive the fitted
    value at its position in the signature. *)
Theorem fit_assigns_by_insertion_position :
  Dict.set_eqb (Dict.keys (params logistic_shuffled))
               (params_signature logistic_shuffled) = true /\
  fit (const_fit [2; 5; 80]) hold_solver [0; 1] [50; 73] [] logistic_shuffled =
    (Ok tt,
     mkGrowth LogisticGrowth [("K", 2); ("a", 5); ("t_0", 80)] no_bounds None)
  /\
  Dict.get (params (snd (fit (const_fit [2; 5; 80]) hold_solver
                             [0; 1] [50; 73] [] logistic_shuffled))) "a"
    = Ok 5.
Proof.
  split; [reflexivity | split; reflexivity].
Qed.

(** C2.  The object holds a = 1, t_0 = 0, K = 100 and [fit] is called with
    the initial guess [2; 3; 50].  The optimizer that returns its starting
    point returns the stored values 1, 0, 100: the starting point handed to
    the optimizer is the stored parameters, not the supplied guess. *)
Theorem fit_starts_from_stored_params :
  fit echo_fit hold_solver [0; 1] [50; 73] [2; 3; 50] logistic_ex =
    (Ok tt,
     mkGrowth LogisticGrowth [("a", 1); ("t_0", 0); ("K", 100)] no_bounds None)
  /\
  (forall curve_fit solve_ivp t y p0 self,
      fit curve_fit solve_ivp t y p0 self = fit curve_fit solve_ivp t y [] self).
Proof.
  split; reflexivity.
Qed.

(** ** The theorems at concrete objects *)

Lemma signature_mismatch_raised_iff_witness :
  init LogisticGrowth [("a", 1); ("K", 100)] no_bounds =
    Err (AssertionError SignatureCheck) /\
  compute_y hold_solver [0; 1] [] logistic_missing_key =
    (Err (AssertionError SignatureCheck), logistic_missing_key) /\
  fit echo_fit hold_solver [0; 1] [50; 73] [] logistic_missing_key =
    (Err (AssertionError SignatureCheck), logistic_missing_key).
Proof.
  destruct (signature_mismatch_raised_iff echo_fit hold_solver)
    as (Hinit & _ & _ & _ & Hy & Hfit).
  assert (Hm : ~ Dict.same_set ["a"; "K"] ["a"; "t_0"; "K"]).
  { apply set_eqb_false. reflexivity. }
  split; [|split].
  - apply Hinit. exact Hm.
  - apply Hy.
    + simpl. discriminate.
    + unfold hold_solver. discriminate.
    + exact Hm.
  - apply Hfit.
    + unfold echo_fit. discriminate.
    + exact Hm.
Defined.

Lemma override_length_checked_witness :
  compute_y hold_solver [0; 1] [1; 2] logistic_ex =
    (Err (AssertionError ArgumentCount), logistic_ex).
Proof.
  apply (override_length_checked hold_solver logistic_ex [0; 1] [1; 2]).
  - discriminate.
  - simpl. discriminate.
  - simpl. lia.
Defined.

(** As stated, C5 fails on an object of the generalized exponential class
    whose [y_0] is not set: the override [1] is not empty and is shorter
    than the signature (a, p), and the exception is the one of the unset
    [y_0], not the argument-count AssertionError. *)
Lemma override_length_unset_y_0_counterexample :
  ~ ([1] <> [] ->
     List.length [1] <> List.length (params_signature gen_exp_unset) ->
     fst (compute_y hold_solver [0] [1] gen_exp_unset) =
       Err (AssertionError ArgumentCount)).
Proof.
  intros H. assert (E : fst (compute_y hold_solver [0] [1] gen_exp_unset) =
                        Err Y0Unset) by reflexivity.
  rewrite H in E; simpl; discriminate.
Qed.

Lemma unset_y_0_raised_first_witness :
  compute_y hold_solver [0; 1] [1] gen_exp_unset =
    (Err Y0Unset, gen_exp_unset).
Proof.
  apply (unset_y_0_raised_first hold_solver gen_exp_unset [0; 1] [1]);
    reflexivity.
Defined.

Lemma failed_fit_keeps_params_witness :
  fit (failing_fit RuntimeError) hold_solver [0; 1] [50; 73] [] logistic_ex =
    (Err RuntimeError, logistic_ex).
Proof.
  apply (failed_fit_keeps_params (failing_fit RuntimeError) hold_solver
           logistic_ex [0; 1] [50; 73] [] [1; 0; 100] RuntimeError);
    reflexivity.
Defined.

Lemma richards_reduces_to_logistic_witness :
  fst (compute_y hold_solver [0; 1; 2] [1; 1; 0; 100] richard_ex) =
    fst (compute_y hold_solver [0; 1; 2] [1; 0; 100] logistic_ex) /\
  fst (compute_y hold_solver [0; 1; 2] [1; 0; 100] logistic_ex) =
    Ok (map (fun ti => 100 / (1 + exp (- ti))) [0; 1; 2]).
Proof.
  apply (richards_reduces_to_logistic hold_solver richard_ex logistic_ex
           [0; 1; 2]); reflexivity.
Defined.


(** As stated, C10 fails for the generalized exponential class, a
    closed-form class: with the same time 0 and the same full-length
    override (a = 1, p = 0), the two objects return their own [y_0], 1 and
    2. *)
Lemma override_depends_on_y_0_counterexample :
  cls gen_exp_from_1 = cls gen_exp_from_2 /\
  closed_form (cls gen_exp_from_1) = true /\
  List.length [1; 0] = List.length (signature (cls gen_exp_from_1)) /\
  fst (compute_y hold_solver [0] [1; 0] gen_exp_from_1) = Ok [1] /\
  fst (compute_y hold_solver [0] [1; 0] gen_exp_from_2) = Ok [2] /\
  fst (compute_y hold_solver [0] [1; 0] gen_exp_from_1) <>
    fst (compute_y hold_solver [0] [1; 0] gen_exp_from_2).
Proof.
  assert (E1 : fst (compute_y hold_solver [0] [1; 0] gen_exp_from_1) = Ok [1]).
  { rewrite (gen_exp_run hold_solver gen_exp_from_1 [0] [1; 0] 1 1 0);
      try reflexivity; try lra.
    simpl. rewrite gen_exp_at_zero by lra. reflexivity. }
  assert (E2 : fst (compute_y hold_solver [0] [1; 0] gen_exp_from_2) = Ok [2]).
  { rewrite (gen_exp_run hold_solver gen_exp_from_2 [0] [1; 0] 2 1 0);
      try reflexivity; try lra.
    simpl. rewrite gen_exp_at_zero by lra. reflexivity. }
  repeat (split; [reflexivity|]). split; [exact E1|]. split; [exact E2|].
  rewrite E1, E2. intros H. inversion H. lra.
Qed.

Lemma override_ignores_stored_params_witness :
  fst (compute_y hold_solver [0; 1] [1; 0; 100] logistic_ex) =
    fst (compute_y hold_solver [0; 1] [1; 0; 100] logistic_other) /\
  snd (compute_y hold_solver [0; 1] [1; 0; 100] logistic_ex) = logistic_ex /\
  snd (compute_y hold_solver [0; 1] [1; 0; 100] logistic_other) =
    logistic_other.
Proof.
  apply (override_ignores_stored_params hold_solver logistic_ex
           logistic_other [0; 1] [1; 0; 100]).
  - reflexivity.
  - reflexivity.
  - simpl. discriminate.
  - reflexivity.
Defined.

(** ** The Logistic and Richards curves *)

Lemma exp_le_mono (x y : R) : x <= y -> exp x <= exp y.
Proof.
  intros [H| ->]; [left; now apply exp_increasing | right; reflexivity].
Qed.

Lemma logistic_curve_bounds (a t_0 K ti : R) :
  0 < K -> 0 < logistic_curve a t_0 K ti < K.
Proof.
  intros HK. unfold logistic_curve.
  pose proof (exp_pos (- a * (ti - t_0))) as He.
  set (E := exp (- a * (ti - t_0))) in *. split.
  - apply Rdiv_lt_0_compat; lra.
  - apply (Rmult_lt_reg_r (1 + E)); [lra|].
    unfold Rdiv. rewrite Rmult_assoc, Rinv_l by lra. nra.
Qed.

Lemma logistic_curve_range (a t_0 K ti : R) :
  0 <= K -> 0 <= logistic_curve a t_0 K ti <= K.
Proof.
  intros [HK| <-].
  - destruct (logistic_curve_bounds a t_0 K ti HK). lra.
  - unfold logistic_curve, Rdiv. rewrite Rmult_0_l. lra.
Qed.

Lemma logistic_curve_mono (a t_0 K t1 t2 : R) :
  0 <= a -> 0 <= K -> t1 <= t2 ->
  logistic_curve a t_0 K t1 <= logistic_curve a t_0 K t2.
Proof.
  intros Ha HK Ht. unfold logistic_curve, Rdiv.
  apply Rmult_le_compat_l; [assumption|].
  apply Rinv_le_contravar; [apply one_plus_exp_pos|].
  apply Rplus_le_compat_l, exp_le_mono. nra.
Qed.


(** The Logistic curve is the Richards curve with b = 1 and d = a t_0. *)
Lemma logistic_as_richards (a t_0 K ti : R) :
  richards_curve a 1 (a * t_0) K ti = logistic_curve a t_0 K ti.
Proof.
  unfold richards_curve, logistic_curve.
  rewrite Rpower_minus_one by apply one_plus_exp_pos.
  replace (a * t_0 - a * 1 * ti) with (- a * (ti - t_0)) by ring.
  reflexivity.
Qed.

Lemma richards_curve_bounds (a b d K ti : R) :
  0 < b -> 0 < K -> 0 < richards_curve a b d K ti < K.
Proof.
  intros Hb HK. unfold richards_curve.
  pose proof (exp_pos (d - a * b * ti)) as He.
  set (E := exp (d - a * b * ti)) in *.
  assert (Hp : 0 < Rpower (1 + E) (- 1 / b)) by apply exp_pos.
  assert (Hlt : Rpower (1 + E) (- 1 / b) < 1).
  { replace (- 1 / b) with (- (1 / b)) by (field; lra).
    rewrite Rpower_Ropp.
    assert (H1 : 1 < Rpower (1 + E) (1 / b)).
    { rewrite <- (Rpower_O (1 + E)) at 1 by lra.
      apply Rpower_lt; [lra|]. apply Rdiv_lt_0_compat; lra. }
    apply (Rmult_lt_reg_r (Rpower (1 + E) (1 / b))); [lra|].
    rewrite Rinv_l by lra. lra. }
  split; nra.
Qed.

Lemma richards_curve_range (a b d K ti : R) :
  0 < b -> 0 <= K -> 0 <= richards_curve a b d K ti <= K.
Proof.
  intros Hb [HK| <-].
  - destruct (richards_curve_bounds a b d K ti Hb HK). lra.
  - unfold richards_curve. rewrite Rmult_0_l. lra.
Qed.

Lemma richards_curve_ratio (a b d K ti : R) :
  b <> 0 -> K <> 0 ->
  0 < richards_curve a b d K ti / K /\
  Rpower (richards_curve a b d K ti / K) b = / (1 + exp (d - a * b * ti)).
Proof.
  intros Hb HK. unfold richards_curve.
  replace (K * Rpower (1 + exp (d - a * b * ti)) (- 1 / b) / K)
    with (Rpower (1 + exp (d - a * b * ti)) (- 1 / b)) by (field; lra).
  split; [apply exp_pos|].
  rewrite Rpower_mult.
  replace (- 1 / b * b) with (- (1)) by (field; lra).
  rewrite Rpower_Ropp, Rpower_1 by apply one_plus_exp_pos. reflexivity.
Qed.

(** The Richards curve solves dy/dt = a y (1 - (y/K)^b). *)
Lemma richards_curve_derivative (a b d K ti : R) :
  b <> 0 -> K <> 0 ->
  derivable_pt_lim (richards_curve a b d K) ti
    (a * richards_curve a b d K ti *
     (1 - Rpower (richards_curve a b d K ti / K) b)).
Proof.
  intros Hb HK.
  destruct (richards_curve_ratio a b d K ti Hb HK) as [_ Hr]. rewrite Hr.
  pose proof (exp_pos (d - a * b * ti)) as He.
  assert (Hu : derivable_pt_lim (fun x => d - a * b * x) ti (- (a * b))).
  { replace (- (a * b)) with (0 - (0 * ti + a * b * 1)) by ring.
    apply (derivable_pt_lim_minus (fun _ => d) (fun x => a * b * x)).
    - apply derivable_pt_lim_const.
    - apply (derivable_pt_lim_mult (fun _ => a * b) (fun x => x)).
      + apply derivable_pt_lim_const.
      + apply derivable_pt_lim_id. }
  assert (Hg : derivable_pt_lim (fun x => 1 + exp (d - a * b * x)) ti
                 (exp (d - a * b * ti) * - (a * b))).
  { replace (exp (d - a * b * ti) * - (a * b))
      with (0 + exp (d - a * b * ti) * - (a * b)) by ring.
    apply (derivable_pt_lim_plus (fun _ => 1)
             (fun x => exp (d - a * b * x))).
    - apply derivable_pt_lim_const.
    - apply (derivable_pt_lim_comp (fun x => d - a * b * x) exp);
        [exact Hu | apply derivable_pt_lim_exp]. }
  assert (Hp : derivable_pt_lim
                 (fun x => Rpower (1 + exp (d - a * b * x)) (- 1 / b)) ti
                 (- 1 / b * Rpower (1 + exp (d - a * b * ti)) (- 1 / b - 1) *
                  (exp (d - a * b * ti) * - (a * b)))).
  { apply (derivable_pt_lim_comp (fun x => 1 + exp (d - a * b * x))
             (fun x => Rpower x (- 1 / b)));
      [exact Hg | apply derivable_pt_lim_power; lra]. }
  unfold richards_curve.
  replace (a * (K * Rpower (1 + exp (d - a * b * ti)) (- 1 / b)) *
           (1 - / (1 + exp (d - a * b * ti))))
    with (K * (- 1 / b * Rpower (1 + exp (d - a * b * ti)) (- 1 / b - 1) *
               (exp (d - a * b * ti) * - (a * b)))).
  - apply (derivable_pt_lim_scal
             (fun x => Rpower (1 + exp (d - a * b * x)) (- 1 / b)) K ti).
    exact Hp.
  - replace (- 1 / b - 1) with (- 1 / b + - (1)) by ring.
    rewrite Rpower_plus, Rpower_Ropp, Rpower_1 by lra.
    set (E := exp (d - a * b * ti)) in *.
    set (P := Rpower (1 + E) (- 1 / b)). field. split; lra.
Qed.


Section Curves.

Variable solve_ivp :
  (R -> list R -> result (list R)) ->
  R * R -> list R -> list R -> result (list (list R)).

Lemma logistic_run (self : Growth) (t args : list R) (a t_0 K : R) :
  cls self = LogisticGrowth ->
  fst (_get_compute_parameters args self) = Ok [a; t_0; K] ->
  compute_y solve_ivp t args self = (Ok (map (logistic_curve a t_0 K) t), self).
Proof.
  intros Hc Hr.
  rewrite compute_y_dispatch, Hc. unfold LogisticGrowth_compute_y.
  rewrite bind_resolve, Hr. unfold lift. f_equal.
  apply mapM_ok_map. intros ti. unfold logistic_curve.
  apply div_ok. pose proof (one_plus_exp_pos (- a * (ti - t_0))). lra.
Qed.

Lemma richards_run (self : Growth) (t args : list R) (a b d K : R) :
  cls self = RichardGrowth ->
  fst (_get_compute_parameters args self) = Ok [a; b; d; K] ->
  b <> 0 ->
  compute_y solve_ivp t args self =
  (Ok (map (richards_curve a b d K) t), self).
Proof.
  intros Hc Hr Hb.
  rewrite compute_y_dispatch, Hc. unfold RichardGrowth_compute_y.
  rewrite bind_resolve, Hr. unfold lift. f_equal.
  rewrite div_ok by assumption. cbn [bind_result].
  apply mapM_ok_map. intros ti. unfold richards_curve.
  now rewrite pow_pos by apply one_plus_exp_pos.
Qed.

(** X1.  Whatever the parameters a, t_0, K are (override or stored), the
    Logistic class returns a value for every time, one per time and in the
    order of the times: no arithmetic exception is raised, the denominator
    1 + exp(...) being positive; [self] is left as it was. *)
Theorem logistic_compute_y_total
  (self : Growth) (t args : list R) (a t_0 K : R) :
  cls self = LogisticGrowth ->
  fst (_get_compute_parameters args self) = Ok [a; t_0; K] ->
  exists ys,
    compute_y solve_ivp t args self = (Ok ys, self) /\
    List.length ys = List.length t /\
    forall i ti, nth_error t i = Some ti ->
                 nth_error ys i = Some (K / (1 + exp (- a * (ti - t_0)))).
Proof.
  intros Hc Hr. exists (map (logistic_curve a t_0 K) t).
  split; [now apply logistic_run|]. split; [apply length_map|].
  intros i ti Hi. now rewrite nth_error_map, Hi.
Qed.

(** X2.  With an asymptote K >= 0, every value the Logistic class returns
    lies between 0 and K, the ends included.  (Over the real numbers the
    ends are not reached for K > 0; in binary64 arithmetic they are, for
    times far from t_0.) *)
Theorem logistic_values_between_0_and_K
  (self : Growth) (t args : list R) (a t_0 K : R) :
  cls self = LogisticGrowth ->
  fst (_get_compute_parameters args self) = Ok [a; t_0; K] ->
  0 <= K ->
  exists ys,
    fst (compute_y solve_ivp t args self) = Ok ys /\
    Forall (fun y => 0 <= y <= K) ys.
Proof.
  intros Hc Hr HK. exists (map (logistic_curve a t_0 K) t).
  split; [now rewrite (logistic_run self t args a t_0 K)|].
  apply Forall_forall. intros y Hy. apply in_map_iff in Hy as [ti [<- _]].
  now apply logistic_curve_range.
Qed.


(** X4.  With a rate a >= 0 and an asymptote K >= 0 the Logistic class is
    non-decreasing in time: a later time never gets a smaller value. *)
Theorem logistic_nondecreasing
  (self : Growth) (args : list R) (a t_0 K t1 t2 : R) :
  cls self = LogisticGrowth ->
  fst (_get_compute_parameters args self) = Ok [a; t_0; K] ->
  0 <= a -> 0 <= K -> t1 <= t2 ->
  exists y1 y2,
    fst (compute_y solve_ivp [t1; t2] args self) = Ok [y1; y2] /\ y1 <= y2.
Proof.
  intros Hc Hr Ha HK Ht.
  exists (logistic_curve a t_0 K t1), (logistic_curve a t_0 K t2).
  split; [now rewrite (logistic_run self _ args a t_0 K)|].
  now apply logistic_curve_mono.
Qed.

(** X5.  As laws over the real numbers, the Richards formula with b = 1
    and d = a t_0 is the Logistic formula: for every a, t_0 and K there is
    one real function of time, K / (1 + exp (- a (t - t_0))), whose values
    both the Richards class called with (a, 1, a t_0, K) and the Logistic
    class called with (a, t_0, K) compute.  (In binary64 arithmetic the
    two results agree up to rounding only.) *)
Theorem richards_generalises_logistic
  (gR gL : Growth) (a t_0 K : R) :
  cls gR = RichardGrowth ->
  cls gL = LogisticGrowth ->
  exists y : R -> R,
    (forall ti, y ti = K / (1 + exp (- a * (ti - t_0)))) /\
    (forall t, fst (compute_y solve_ivp t [a; 1; a * t_0; K] gR) =
               Ok (map y t)) /\
    (forall t, fst (compute_y solve_ivp t [a; t_0; K] gL) = Ok (map y t)).
Proof.
  intros HR HL. exists (logistic_curve a t_0 K).
  split; [reflexivity|]. split; intros t.
  - rewrite (richards_run gR t _ a 1 (a * t_0) K); try assumption; try lra.
    + cbn [fst]. f_equal. apply map_ext. intros ti. apply logistic_as_richards.
    + now rewrite full_override_resolves
        by (unfold params_signature; now rewrite HR).
  - rewrite (logistic_run gL t _ a t_0 K); try assumption; try reflexivity.
    now rewrite full_override_resolves
      by (unfold params_signature; now rewrite HL).
Qed.

(** X6.  With a shape b > 0 and an asymptote K >= 0, the Richards class
    returns a value for every time, one per time, each between 0 and K,
    the ends included.  (Over the real numbers the ends are not reached
    for K > 0; in binary64 arithmetic they are.) *)
Theorem richards_values_between_0_and_K
  (self : Growth) (t args : list R) (a b d K : R) :
  cls self = RichardGrowth ->
  fst (_get_compute_parameters args self) = Ok [a; b; d; K] ->
  0 < b -> 0 <= K ->
  exists ys,
    compute_y solve_ivp t args self = (Ok ys, self) /\
    List.length ys = List.length t /\
    Forall (fun y => 0 <= y <= K) ys.
Proof.
  intros Hc Hr Hb HK. exists (map (richards_curve a b d K) t).
  split; [apply richards_run; try assumption; lra|].
  split; [apply length_map|].
  apply Forall_forall. intros y Hy. apply in_map_iff in Hy as [ti [<- _]].
  now apply richards_curve_range.
Qed.

(** X8.  The function of time the Richards class computes solves the
    differential equation of its docstring, dy/dt = a y (1 - (y/K)^b),
    at every time, for b <> 0 and K <> 0; the power (y/K)^b has a positive
    base. *)
Theorem richards_solves_its_equation (self : Growth) (a b d K : R) :
  cls self = RichardGrowth ->
  b <> 0 -> K <> 0 ->
  exists y : R -> R,
    (forall ti, fst (compute_y solve_ivp [ti] [a; b; d; K] self) = Ok [y ti]) /\
    (forall ti, PyNum.pow (y ti / K) b = Ok (Rpower (y ti / K) b)) /\
    (forall ti, derivable_pt_lim y ti
                  (a * y ti * (1 - Rpower (y ti / K) b))).
Proof.
  intros Hc Hb HK. exists (richards_curve a b d K). split; [|split].
  - intros ti. rewrite (richards_run self [ti] _ a b d K); try assumption.
    + reflexivity.
    + now rewrite full_override_resolves
        by (unfold params_signature; now rewrite Hc).
  - intros ti. apply pow_pos. now apply richards_curve_ratio.
  - intros ti. now apply richards_curve_derivative.
Qed.

(** X9.  The function of time the Logistic class computes solves the
    logistic equation dy/dt = a y (1 - y/K), at every time, for K <> 0. *)
Theorem logistic_solves_logistic_equation (self : Growth) (a t_0 K : R) :
  cls self = LogisticGrowth ->
  K <> 0 ->
  exists y : R -> R,
    (forall ti, fst (compute_y solve_ivp [ti] [a; t_0; K] self) = Ok [y ti]) /\
    (forall ti, derivable_pt_lim y ti (a * y ti * (1 - y ti / K))).
Proof.
  intros Hc HK. exists (logistic_curve a t_0 K). split.
  - intros ti. rewrite (logistic_run self [ti] _ a t_0 K); try assumption.
    + reflexivity.
    + now rewrite full_override_resolves
        by (unfold params_signature; now rewrite Hc).
  - intros ti.
    apply (derivable_pt_lim_ext (richards_curve a 1 (a * t_0) K));
      [intros z; apply logistic_as_richards|].
    rewrite <- (logistic_as_richards a t_0 K ti).
    destruct (richards_curve_ratio a 1 (a * t_0) K ti) as [Hpos _];
      [lra | assumption |].
    replace (1 - richards_curve a 1 (a * t_0) K ti / K)
      with (1 - Rpower (richards_curve a 1 (a * t_0) K ti / K) 1)
      by now rewrite Rpower_1.
    apply richards_curve_derivative; [lra | assumption].
Qed.

End Curves.

(** ** The generalized exponential curve *)



Section GeneralizedExponential.

Variable solve_ivp :
  (R -> list R -> result (list R)) ->
  R * R -> list R -> list R -> result (list (list R)).



End GeneralizedExponential.

(** ** The right-hand side of the integrated class *)

(** X13.  For a > 0, c > 0 and K > 0 the right-hand side [dydt] vanishes
    at y = 0 and at y = K, and is positive at every y strictly between
    them: between its rest points the response grows towards K.  The
    time argument is not read. *)
Theorem dydt_rest_points_and_sign (a c K t y : R) :
  0 < a -> 0 < c -> 0 < K -> 0 < y < K ->
  dydt a c K t [0] = Ok [0] /\
  dydt a c K t [K] = Ok [0] /\
  exists r, dydt a c K t [y] = Ok [r] /\ 0 < r.
Proof.
  intros Ha Hc HK [Hy0 HyK]. unfold dydt. simpl. repeat split.
  - rewrite div_ok by lra. simpl. do 2 f_equal. field. lra.
  - rewrite div_ok by nra. simpl. do 2 f_equal. field. nra.
  - assert (Hd : 0 < K - y + c * y) by nra.
    rewrite div_ok by lra. simpl. eexists. split; [reflexivity|].
    apply Rdiv_lt_0_compat; [|assumption].
    apply Rmult_lt_0_compat; [nra | lra].
Qed.


(** ** Resolution from the stored dictionary *)

Lemma get_not_in_keys (d : Dict.t) (k : string) :
  ~ In k (Dict.keys d) -> Dict.get d k = Err (KeyError k).
Proof.
  induction d as [|[k' v'] d IH]; simpl; intros H; [reflexivity|].
  destruct (String.eqb k k') eqn:E.
  - apply String.eqb_eq in E. subst. tauto.
  - apply IH. tauto.
Qed.

Lemma get_in (d : Dict.t) (k : string) (v : R) :
  NoDup (Dict.keys d) -> (Dict.get d k = Ok v <-> In (k, v) d).
Proof.
  induction d as [|[k' v'] d IH]; simpl; intros Hnd.
  - split; [discriminate | tauto].
  - inversion Hnd as [|? ? Hfresh Hnd']. subst.
    destruct (String.eqb k k') eqn:E.
    + apply String.eqb_eq in E. subst k'. split.
      * intros H. inversion H. now left.
      * intros [H|H]; [now inversion H|].
        exfalso. apply Hfresh. unfold Dict.keys.
        change k with (fst (k, v)). now apply in_map.
    + rewrite (IH Hnd'). split; [tauto|].
      intros [H|H]; [|assumption].
      inversion H. subst. now rewrite String.eqb_refl in E.
Qed.

Lemma get_permutation (d1 d2 : Dict.t) (k : string) :
  NoDup (Dict.keys d1) -> Permutation d1 d2 ->
  Dict.get d1 k = Dict.get d2 k.
Proof.
  intros Hnd Hp.
  assert (Hk : Permutation (Dict.keys d1) (Dict.keys d2))
    by now apply Permutation_map.
  assert (Hnd2 : NoDup (Dict.keys d2))
    by now apply (Permutation_NoDup Hk).
  destruct (Dict.get d1 k) as [v|e] eqn:E1.
  - symmetry. apply get_in; [assumption|].
    apply (Permutation_in _ Hp). now apply get_in.
  - destruct (in_dec string_dec k (Dict.keys d1)) as [Hin|Hout].
    + destruct (get_in_keys d1 k Hin) as [v Hv]. congruence.
    + rewrite get_not_in_keys in E1 by assumption. rewrite <- E1.
      symmetry. apply get_not_in_keys. intros Hin. apply Hout.
      now apply (Permutation_in _ (Permutation_sym Hk)).
Qed.

Lemma set_eqb_same_set (l1 l2 l : list string) :
  Dict.same_set l1 l2 -> Dict.set_eqb l1 l = Dict.set_eqb l2 l.
Proof.
  intros H.
  destruct (Dict.set_eqb l2 l) eqn:E.
  - apply set_eqb_spec. apply set_eqb_spec in E.
    intros x. split; intros Hx.
    + apply E, H, Hx.
    + apply H, E, Hx.
  - apply set_eqb_false. apply set_eqb_false in E.
    intros H'. apply E. intros x. split; intros Hx.
    + apply H', H, Hx.
    + apply H, H', Hx.
Qed.

Lemma mapM_ext_in {A B} (f g : A -> result B) (l : list A) :
  (forall x, In x l -> f x = g x) -> mapM f l = mapM g l.
Proof.
  induction l as [|x xs IH]; intros H; simpl; [reflexivity|].
  rewrite (H x) by now left. rewrite IH; [reflexivity|].
  intros z Hz. apply H. now right.
Qed.

Lemma mapM_nth {A B} (f : A -> result B) (l : list A) (ys : list B)
  (i : nat) (x : A) :
  mapM f l = Ok ys -> nth_error l i = Some x ->
  exists y, nth_error ys i = Some y /\ f x = Ok y.
Proof.
  revert ys i. induction l as [|z zs IH]; intros ys i H Hi.
  - destruct i; discriminate.
  - simpl in H. destruct (f z) as [y|] eqn:Ez; simpl in H; [|discriminate].
    destruct (mapM f zs) as [ys'|] eqn:Em; simpl in H; [|discriminate].
    inversion H. subst. destruct i as [|i]; simpl in *.
    + inversion Hi. subst. now exists y.
    + now apply (IH ys' i).
Qed.

Lemma signature_NoDup (v : variant) : NoDup (signature v).
Proof.
  destruct v; simpl;
    repeat (constructor; [simpl; intuition discriminate|]); constructor.
Qed.

Section Resolution.

Variable curve_fit :
  (list R -> list R -> result (list R)) ->
  list R -> list R -> Bounds -> list R -> result (list R).

Variable solve_ivp :
  (R -> list R -> result (list R)) ->
  R * R -> list R -> list R -> result (list (list R)).

(** The result of [compute_y] is decided by the class, by [y_0] and by
    what the resolution of the parameters gives. *)
Lemma compute_y_by_resolution (g1 g2 : Growth) (t a1 a2 : list R) :
  cls g1 = cls g2 ->
  y_0 g1 = y_0 g2 ->
  fst (_get_compute_parameters a1 g1) = fst (_get_compute_parameters a2 g2) ->
  fst (compute_y solve_ivp t a1 g1) = fst (compute_y solve_ivp t a2 g2).
Proof.
  intros Hc Hy Hr. rewrite !compute_y_dispatch, <- Hc.
  destruct (cls g1);
    unfold LogisticGrowth_compute_y, RichardGrowth_compute_y,
           ExponentialGeneralizedGrowth_compute_y,
           LogisticSigmoidGrowth_compute_y;
    rewrite ?bind_require_y_0, <- ?Hy;
    try (destruct (y_0 g1) as [y0|]; [|reflexivity]);
    rewrite !bind_resolve, <- Hr;
    destruct (fst (_get_compute_parameters a1 g1)) as [ps|e];
    try reflexivity;
    destruct ps as [|? [|? [|? [|? [|? ?]]]]]; try reflexivity.
  unfold bind, lift, ret. destruct (PyNum.max t); [|reflexivity].
  now destruct (solve_ivp _ _ _ _).
Qed.

(** X15.  A forward evaluation without override does not depend on the
    order in which the keys were inserted in the dictionary: two objects
    of one class with the same [y_0] whose dictionaries hold the same
    entries in different orders return the same result. *)
Theorem default_evaluation_ignores_insertion_order
  (g1 g2 : Growth) (t : list R) :
  cls g1 = cls g2 ->
  y_0 g1 = y_0 g2 ->
  NoDup (Dict.keys (params g1)) ->
  Permutation (params g1) (params g2) ->
  fst (_get_compute_parameters [] g1) = fst (_get_compute_parameters [] g2) /\
  fst (compute_y solve_ivp t [] g1) = fst (compute_y solve_ivp t [] g2).
Proof.
  intros Hc Hy Hnd Hp.
  assert (Hr : fst (_get_compute_parameters [] g1) =
               fst (_get_compute_parameters [] g2)).
  { rewrite !resolve_stored. cbn [fst]. unfold params_signature.
    rewrite <- Hc.
    rewrite (set_eqb_same_set (Dict.keys (params g1)) (Dict.keys (params g2))).
    - destruct (Dict.set_eqb _ _); [|reflexivity].
      apply mapM_ext_in. intros k _. now apply get_permutation.
    - intros x. unfold Dict.keys. split; intros Hx.
      + apply (Permutation_in _ (Permutation_map fst Hp)). exact Hx.
      + apply (Permutation_in _ (Permutation_sym (Permutation_map fst Hp))).
        exact Hx. }
  split; [exact Hr|]. now apply compute_y_by_resolution.
Qed.

(** X16.  When the keys of the dictionary match the signature, a forward
    evaluation without override is the evaluation with the stored values
    as override: the resolution never raises KeyError, it yields one value
    per name of the signature, the value stored under the name at each
    position, and [compute_y] returns the same result for both calls. *)
Theorem default_evaluation_uses_stored_values (self : Growth) (t : list R) :
  Dict.same_set (Dict.keys (params self)) (params_signature self) ->
  exists ps,
    fst (_get_compute_parameters [] self) = Ok ps /\
    List.length ps = List.length (params_signature self) /\
    (forall i k, nth_error (params_signature self) i = Some k ->
                 exists v, nth_error ps i = Some v /\
                           Dict.get (params self) k = Ok v) /\
    compute_y solve_ivp t [] self = compute_y solve_ivp t ps self.
Proof.
  intros Hs. destruct (resolve_stored_ok self Hs) as [ps [Hps Hl]].
  exists ps. split; [now rewrite Hps|]. split; [exact Hl|]. split.
  - intros i k Hi. rewrite resolve_stored in Hps.
    apply set_eqb_spec in Hs. rewrite Hs in Hps.
    inversion Hps as [Hm]. now apply (mapM_nth _ _ _ i k Hm).
  - rewrite (surjective_pairing (compute_y solve_ivp t [] self)).
    rewrite (surjective_pairing (compute_y solve_ivp t ps self)).
    rewrite !compute_y_state. f_equal.
    apply compute_y_by_resolution; try reflexivity.
    rewrite Hps, full_override_resolves by exact Hl. reflexivity.
Qed.

End Resolution.

(** ** What [fit] keeps and what it stores *)

Lemma keys_set_existing (d : Dict.t) (k : string) (v : R) :
  In k (Dict.keys d) -> Dict.keys (Dict.set d k v) = Dict.keys d.
Proof.
  induction d as [|[k' v'] d IH]; simpl; intros H; [tauto|].
  destruct (String.eqb k k') eqn:E; simpl; [reflexivity|].
  f_equal. apply IH. destruct H as [H|H]; [|assumption].
  subst. now rewrite String.eqb_refl in E.
Qed.

Lemma fit_loop_keeps_shape (fp : list R) (ks : list string) :
  forall (i : nat) (self : Growth),
    (forall k, In k ks -> In k (Dict.keys (params self))) ->
    cls (snd (fit_loop fp ks i self)) = cls self /\
    bounds (snd (fit_loop fp ks i self)) = bounds self /\
    y_0 (snd (fit_loop fp ks i self)) = y_0 self /\
    Dict.keys (params (snd (fit_loop fp ks i self))) =
      Dict.keys (params self).
Proof.
  induction ks as [|k ks IH]; intros i self Hin; simpl.
  - repeat split.
  - destruct (nth_error fp i) as [w|]; [|repeat split].
    unfold bind, set_param.
    set (self' := mkGrowth (cls self) (Dict.set (params self) k w)
                           (bounds self) (y_0 self)).
    assert (Hk : Dict.keys (params self') = Dict.keys (params self)).
    { apply keys_set_existing. apply Hin. now left. }
    destruct (IH (S i) self') as (H1 & H2 & H3 & H4).
    { intros z Hz. rewrite Hk. apply Hin. now right. }
    rewrite H1, H2, H3, H4. repeat split. exact Hk.
Qed.

Lemma get_combine_signature (sig : list string) (fp : list R) :
  NoDup sig -> List.length fp = List.length sig ->
  mapM (Dict.get (combine sig fp)) sig = Ok fp.
Proof.
  revert fp. induction sig as [|k sig IH]; intros [|v fp] Hnd Hl;
    simpl in Hl; try discriminate; [reflexivity|].
  inversion Hnd as [|? ? Hfresh Hnd']. subst.
  simpl. rewrite String.eqb_refl. simpl.
  rewrite (mapM_ext_in _ (Dict.get (combine sig fp))).
  - rewrite IH by (auto; lia). reflexivity.
  - intros z Hz. destruct (String.eqb z k) eqn:E; [|reflexivity].
    apply String.eqb_eq in E. subst. contradiction.
Qed.

Section Fitting.

Variable curve_fit :
  (list R -> list R -> result (list R)) ->
  list R -> list R -> Bounds -> list R -> result (list R).

Variable solve_ivp :
  (R -> list R -> result (list R)) ->
  R * R -> list R -> list R -> result (list (list R)).

(** X17.  Whatever the optimizer does and whether [fit] returns or
    raises, [fit] keeps the class, the bounds and [y_0] of the object and
    the keys of its dictionary, in their order: only values of existing
    keys are written, so an object that passed the signature check passes
    it after [fit]. *)
Theorem fit_keeps_keys_bounds_and_y_0 (self : Growth) (t y p0 : list R) :
  cls (snd (fit curve_fit solve_ivp t y p0 self)) = cls self /\
  bounds (snd (fit curve_fit solve_ivp t y p0 self)) = bounds self /\
  y_0 (snd (fit curve_fit solve_ivp t y p0 self)) = y_0 self /\
  Dict.keys (params (snd (fit curve_fit solve_ivp t y p0 self))) =
    Dict.keys (params self) /\
  fst (_check_params (snd (fit curve_fit solve_ivp t y p0 self))) =
    fst (_check_params self).
Proof.
  assert (H : cls (snd (fit curve_fit solve_ivp t y p0 self)) = cls self /\
              bounds (snd (fit curve_fit solve_ivp t y p0 self)) = bounds self /\
              y_0 (snd (fit curve_fit solve_ivp t y p0 self)) = y_0 self /\
              Dict.keys (params (snd (fit curve_fit solve_ivp t y p0 self))) =
                Dict.keys (params self)).
  { rewrite fit_run.
    destruct (fst (_get_compute_parameters [] self)); [|repeat split].
    destruct (curve_fit _ _ _ _ _); [|repeat split].
    apply fit_loop_keeps_shape. auto. }
  destruct H as (H1 & H2 & H3 & H4). repeat split; try assumption.
  rewrite !check_params_run. cbn [fst]. unfold params_signature.
  now rewrite H1, H4.
Qed.

(** X18.  When the optimizer returns as many values as its starting point
    has, [fit] returns without raising IndexError and pairs the keys of
    the dictionary, in insertion order, with the returned values, in
    their order: the i-th key receives the i-th value. *)
Theorem fit_stores_by_dictionary_position
  (self : Growth) (t y p0 start fp : list R) :
  NoDup (Dict.keys (params self)) ->
  fst (_get_compute_parameters [] self) = Ok start ->
  curve_fit (forward solve_ivp self) t y (bounds self) start = Ok fp ->
  List.length fp = List.length start ->
  fit curve_fit solve_ivp t y p0 self =
    (Ok tt, mkGrowth (cls self) (combine (Dict.keys (params self)) fp)
                     (bounds self) (y_0 self)) /\
  forall i k, nth_error (Dict.keys (params self)) i = Some k ->
              exists v, nth_error fp i = Some v /\
                        In (k, v) (combine (Dict.keys (params self)) fp).
Proof.
  intros Hnd Hs Hc Hl.
  assert (Hlen : List.length (Dict.keys (params self)) = List.length fp).
  { rewrite Hl, (resolve_length [] start self Hs).
    apply Permutation_length, NoDup_Permutation; try assumption.
    - apply signature_NoDup.
    - destruct (Dict.set_eqb (Dict.keys (params self))
                  (params_signature self)) eqn:E.
      + now apply set_eqb_spec.
      + rewrite resolve_stored, E in Hs. discriminate. }
  split.
  - apply (fit_success_run curve_fit solve_ivp self t y p0 start fp);
      try assumption.
    unfold Dict.keys in Hlen. rewrite length_map in Hlen. lia.
  - intros i k Hi.
    destruct (nth_error fp i) as [v|] eqn:Ev.
    + exists v. split; [reflexivity|].
      clear - Hi Ev. revert fp i Hi Ev.
      induction (Dict.keys (params self)) as [|k' ks IH];
        intros [|w fp] [|i] Hi Ev; simpl in *; try discriminate.
      * inversion Hi. inversion Ev. now left.
      * right. now apply (IH fp i).
    + apply nth_error_None in Ev.
      assert (i < List.length (Dict.keys (params self)))%nat
        by (apply nth_error_Some; congruence).
      lia.
Qed.

(** X19.  After a successful [fit] of an object whose dictionary was
    built in signature order, a forward evaluation without override uses
    the fitted values: the resolution returns exactly the values of the
    optimizer, and [compute_y] without override returns what it returns
    with those values as override. *)
Theorem fit_then_default_evaluation
  (self : Growth) (t y p0 start fp ts : list R) :
  Dict.keys (params self) = params_signature self ->
  fst (_get_compute_parameters [] self) = Ok start ->
  curve_fit (forward solve_ivp self) t y (bounds self) start = Ok fp ->
  List.length fp = List.length (params_signature self) ->
  fst (fit curve_fit solve_ivp t y p0 self) = Ok tt /\
  fst (_get_compute_parameters []
         (snd (fit curve_fit solve_ivp t y p0 self))) = Ok fp /\
  fst (compute_y solve_ivp ts []
         (snd (fit curve_fit solve_ivp t y p0 self))) =
  fst (compute_y solve_ivp ts fp
         (snd (fit curve_fit solve_ivp t y p0 self))).
Proof.
  intros Hk Hs Hc Hl.
  rewrite (fit_in_signature_order curve_fit solve_ivp self t y p0 start fp)
    by assumption.
  cbn [fst snd].
  set (self' := mkGrowth (cls self) (combine (params_signature self) fp)
                         (bounds self) (y_0 self)).
  assert (Hkeys : Dict.keys (params self') = params_signature self').
  { unfold self', params_signature, Dict.keys. cbn [params cls].
    clear - Hl. unfold params_signature in Hl.
    revert fp Hl. induction (signature (cls self)) as [|k sig IH];
      intros [|v fp] Hl; simpl in *; try discriminate; [reflexivity|].
    f_equal. apply IH. lia. }
  assert (Hr : fst (_get_compute_parameters [] self') = Ok fp).
  { rewrite resolve_stored. cbn [fst]. rewrite Hkeys.
    assert (E : Dict.set_eqb (params_signature self')
                  (params_signature self') = true)
      by (apply set_eqb_spec; intros x; tauto).
    rewrite E. unfold self' at 1. cbn [params].
    apply get_combine_signature; [apply signature_NoDup | exact Hl]. }
  split; [reflexivity|]. split; [exact Hr|].
  apply compute_y_by_resolution; try reflexivity.
  now rewrite Hr, full_override_resolves.
Qed.

(** X20.  An object of a class that reads [y_0], as its constructor
    returns it, raises the exception of the unset [y_0] at every forward
    evaluation; so the function that [fit] hands to the optimizer fails
    at every call until [y_0] is assigned. *)
Theorem constructed_object_needs_y_0
  (v : variant) (p : Dict.t) (b : Bounds) (self : Growth) :
  init v p b = Ok self ->
  needs_y_0 v = true ->
  y_0 self = None /\
  (forall t args, compute_y solve_ivp t args self = (Err Y0Unset, self)) /\
  (forall xdata ps, forward solve_ivp self xdata ps = Err Y0Unset).
Proof.
  intros Hi Hn. rewrite init_run in Hi.
  destruct (Dict.set_eqb _ _); [|discriminate]. inversion Hi. subst self.
  assert (H : forall t args,
             compute_y solve_ivp t args (mkGrowth v p b None) =
             (Err Y0Unset, mkGrowth v p b None)).
  { intros t args. rewrite compute_y_dispatch. cbn [cls].
    destruct v; try discriminate;
      unfold ExponentialGeneralizedGrowth_compute_y,
             LogisticSigmoidGrowth_compute_y;
      now rewrite bind_require_y_0. }
  split; [reflexivity|]. split; [exact H|].
  intros xdata ps. unfold forward. now rewrite H.
Qed.

(** X21.  A Logistic object, as its constructor returns it, can be
    evaluated without override at any sequence of times: the evaluation
    raises nothing and returns one value per time. *)
Theorem constructed_logistic_evaluates
  (p : Dict.t) (b : Bounds) (self : Growth) (t : list R) :
  init LogisticGrowth p b = Ok self ->
  exists ys,
    compute_y solve_ivp t [] self = (Ok ys, self) /\
    List.length ys = List.length t.
Proof.
  intros Hi. rewrite init_run in Hi.
  destruct (Dict.set_eqb _ _) eqn:E; [|discriminate]. inversion Hi. subst self.
  apply set_eqb_spec in E.
  destruct (resolve_stored_ok (mkGrowth LogisticGrowth p b None) E)
    as [ps [Hps Hl]].
  destruct ps as [|a [|t_0 [|K [|]]]]; try discriminate.
  exists (map (logistic_curve a t_0 K) t). split; [|apply length_map].
  apply logistic_run; [reflexivity | now rewrite Hps].
Qed.

End Fitting.

(** ** The properties above at concrete objects *)

Lemma logistic_ex_resolves :
  fst (_get_compute_parameters [] logistic_ex) = Ok [1; 0; 100].
Proof. reflexivity. Qed.

Lemma richard_ex_resolves :
  fst (_get_compute_parameters [] richard_ex) = Ok [2; 3; 4; 5].
Proof. reflexivity. Qed.


Lemma logistic_keys_NoDup : NoDup ["K"; "a"; "t_0"].
Proof.
  repeat (constructor; [simpl; intuition discriminate|]); constructor.
Qed.

Lemma logistic_compute_y_total_witness :
  exists ys,
    compute_y hold_solver [0; 1] [] logistic_ex = (Ok ys, logistic_ex) /\
    List.length ys = List.length [0; 1] /\
    forall i ti, nth_error [0; 1] i = Some ti ->
                 nth_error ys i = Some (100 / (1 + exp (- (1) * (ti - 0)))).
Proof.
  apply (logistic_compute_y_total hold_solver logistic_ex [0; 1] [] 1 0 100).
  - reflexivity.
  - exact logistic_ex_resolves.
Defined.

Lemma logistic_values_between_0_and_K_witness :
  exists ys,
    fst (compute_y hold_solver [0; 1] [] logistic_ex) = Ok ys /\
    Forall (fun y => 0 <= y <= 100) ys.
Proof.
  apply (logistic_values_between_0_and_K hold_solver logistic_ex
           [0; 1] [] 1 0 100).
  - reflexivity.
  - exact logistic_ex_resolves.
  - lra.
Defined.


Lemma logistic_nondecreasing_witness :
  exists y1 y2,
    fst (compute_y hold_solver [0; 1] [] logistic_ex) = Ok [y1; y2] /\
    y1 <= y2.
Proof.
  apply (logistic_nondecreasing hold_solver logistic_ex [] 1 0 100 0 1).
  - reflexivity.
  - exact logistic_ex_resolves.
  - lra.
  - lra.
  - lra.
Defined.

Lemma richards_generalises_logistic_witness :
  exists y : R -> R,
    (forall ti, y ti = 5 / (1 + exp (- (2) * (ti - 3)))) /\
    (forall t, fst (compute_y hold_solver t [2; 1; 2 * 3; 5] richard_ex) =
               Ok (map y t)) /\
    (forall t, fst (compute_y hold_solver t [2; 3; 5] logistic_ex) =
               Ok (map y t)).
Proof.
  apply (richards_generalises_logistic hold_solver richard_ex logistic_ex
           2 3 5); reflexivity.
Defined.

Lemma richards_values_between_0_and_K_witness :
  exists ys,
    compute_y hold_solver [0; 1] [] richard_ex = (Ok ys, richard_ex) /\
    List.length ys = List.length [0; 1] /\
    Forall (fun y => 0 <= y <= 5) ys.
Proof.
  apply (richards_values_between_0_and_K hold_solver richard_ex
           [0; 1] [] 2 3 4 5).
  - reflexivity.
  - exact richard_ex_resolves.
  - lra.
  - lra.
Defined.

Lemma richards_solves_its_equation_witness :
  exists y : R -> R,
    (forall ti,
        fst (compute_y hold_solver [ti] [1; 2; 0; 100] richard_ex) =
          Ok [y ti]) /\
    (forall ti, PyNum.pow (y ti / 100) 2 = Ok (Rpower (y ti / 100) 2)) /\
    (forall ti, derivable_pt_lim y ti
                  (1 * y ti * (1 - Rpower (y ti / 100) 2))).
Proof.
  apply (richards_solves_its_equation hold_solver richard_ex 1 2 0 100).
  - reflexivity.
  - lra.
  - lra.
Defined.

Lemma logistic_solves_logistic_equation_witness :
  exists y : R -> R,
    (forall ti,
        fst (compute_y hold_solver [ti] [1; 0; 100] logistic_ex) =
          Ok [y ti]) /\
    (forall ti, derivable_pt_lim y ti (1 * y ti * (1 - y ti / 100))).
Proof.
  apply (logistic_solves_logistic_equation hold_solver logistic_ex 1 0 100).
  - reflexivity.
  - lra.
Defined.



Lemma dydt_rest_points_and_sign_witness :
  dydt 1 2 100 0 [0] = Ok [0] /\
  dydt 1 2 100 0 [100] = Ok [0] /\
  exists r, dydt 1 2 100 0 [50] = Ok [r] /\ 0 < r.
Proof.
  apply (dydt_rest_points_and_sign 1 2 100 0 50); lra.
Defined.


Lemma default_evaluation_ignores_insertion_order_witness :
  fst (_get_compute_parameters [] logistic_shuffled) =
    fst (_get_compute_parameters [] logistic_ex) /\
  fst (compute_y hold_solver [0; 1] [] logistic_shuffled) =
    fst (compute_y hold_solver [0; 1] [] logistic_ex).
Proof.
  apply (default_evaluation_ignores_insertion_order hold_solver
           logistic_shuffled logistic_ex [0; 1]).
  - reflexivity.
  - reflexivity.
  - exact logistic_keys_NoDup.
  - apply (Permutation_cons_app
             [("a", 1); ("t_0", 0)] [] ("K", 100)).
    apply Permutation_refl.
Defined.

Lemma default_evaluation_uses_stored_values_witness :
  exists ps,
    fst (_get_compute_parameters [] logistic_shuffled) = Ok ps /\
    List.length ps = List.length (params_signature logistic_shuffled) /\
    (forall i k, nth_error (params_signature logistic_shuffled) i = Some k ->
                 exists v, nth_error ps i = Some v /\
                           Dict.get (params logistic_shuffled) k = Ok v) /\
    compute_y hold_solver [0; 1] [] logistic_shuffled =
      compute_y hold_solver [0; 1] ps logistic_shuffled.
Proof.
  apply (default_evaluation_uses_stored_values hold_solver
           logistic_shuffled [0; 1]).
  apply set_eqb_spec. reflexivity.
Defined.

Lemma fit_stores_by_dictionary_position_witness :
  fit (const_fit [2; 5; 80]) hold_solver [0; 1] [50; 73] [] logistic_shuffled =
    (Ok tt, mkGrowth LogisticGrowth (combine ["K"; "a"; "t_0"] [2; 5; 80])
                     no_bounds None) /\
  forall i k, nth_error ["K"; "a"; "t_0"] i = Some k ->
              exists v, nth_error [2; 5; 80] i = Some v /\
                        In (k, v) (combine ["K"; "a"; "t_0"] [2; 5; 80]).
Proof.
  apply (fit_stores_by_dictionary_position (const_fit [2; 5; 80]) hold_solver
           logistic_shuffled [0; 1] [50; 73] [] [1; 0; 100] [2; 5; 80]).
  - exact logistic_keys_NoDup.
  - reflexivity.
  - reflexivity.
  - reflexivity.
Defined.

Lemma fit_then_default_evaluation_witness :
  fst (fit (const_fit [2; 5; 80]) hold_solver [0; 1] [50; 73] []
         logistic_ex) = Ok tt /\
  fst (_get_compute_parameters []
         (snd (fit (const_fit [2; 5; 80]) hold_solver [0; 1] [50; 73] []
                 logistic_ex))) = Ok [2; 5; 80] /\
  fst (compute_y hold_solver [0; 7] []
         (snd (fit (const_fit [2; 5; 80]) hold_solver [0; 1] [50; 73] []
                 logistic_ex))) =
  fst (compute_y hold_solver [0; 7] [2; 5; 80]
         (snd (fit (const_fit [2; 5; 80]) hold_solver [0; 1] [50; 73] []
                 logistic_ex))).
Proof.
  apply (fit_then_default_evaluation (const_fit [2; 5; 80]) hold_solver
           logistic_ex [0; 1] [50; 73] [] [1; 0; 100] [2; 5; 80] [0; 7]);
    reflexivity.
Defined.

Lemma constructed_object_needs_y_0_witness :
  y_0 gen_exp_unset = None /\
  (forall t args,
      compute_y hold_solver t args gen_exp_unset =
        (Err Y0Unset, gen_exp_unset)) /\
  (forall xdata ps, forward hold_solver gen_exp_unset xdata ps = Err Y0Unset).
Proof.
  apply (constructed_object_needs_y_0 hold_solver
           ExponentialGeneralizedGrowth [("a", 1); ("p", 0)] no_bounds
           gen_exp_unset); reflexivity.
Defined.

Lemma constructed_logistic_evaluates_witness :
  exists ys,
    compute_y hold_solver [0; 1] [] logistic_ex = (Ok ys, logistic_ex) /\
    List.length ys = List.length [0; 1].
Proof.
  apply (constructed_logistic_evaluates hold_solver
           [("a", 1); ("t_0", 0); ("K", 100)] no_bounds logistic_ex [0; 1]).
  reflexivity.
Defined.

(** ** The last bit of the two closed forms (C7) *)

(** As stated, C7 fails at t = 1 in binary64 arithmetic, with the
    exponential and the power rounded correctly: the Richards expression
    rounds the reciprocal and then the product, the Logistic expression
    rounds one quotient, and the two results, 73.105857863000494 and
    73.10585786300048, differ in the last bit. *)
Lemma richards_logistic_last_bit_counterexample :
  RichardGrowth_formula_binary64 exp_at_minus_1 pow_minus_1 1 1 0 100 1 =
    0x1.246c6600ee724p+6%float /\
  LogisticGrowth_formula_binary64 exp_at_minus_1 1 0 100 1 =
    0x1.246c6600ee723p+6%float /\
  PrimFloat.eqb
    (RichardGrowth_formula_binary64 exp_at_minus_1 pow_minus_1 1 1 0 100 1)
    (LogisticGrowth_formula_binary64 exp_at_minus_1 1 0 100 1) = false.
Proof.
  repeat split; vm_compute; reflexivity.
Qed.

(** ** The integrated class at the empty sequence of times (C9) *)

(** C9.  With [y_0] set and stored parameters that match the signature,
    [compute_y] of the integrated class raises ValueError at the empty
    sequence of times, whatever the integrator is: [max(t)] is taken
    before the integrator is called.  The Logistic class returns the
    empty sequence of values there. *)
Theorem sigmoid_raises_on_empty_times :
  y_0 sigmoid_ex = Some 1 /\
  Dict.set_eqb (Dict.keys (params sigmoid_ex))
               (params_signature sigmoid_ex) = true /\
  Forall (fun ti => 0 <= ti) [] /\
  (forall solve_ivp,
      compute_y solve_ivp [] [] sigmoid_ex = (Err ValueError, sigmoid_ex)) /\
  (forall solve_ivp,
      compute_y solve_ivp [] [] logistic_ex = (Ok [], logistic_ex)).
Proof.
  split; [reflexivity|]. split; [reflexivity|]. split; [constructor|].
  split; intros solve_ivp; reflexivity.
Qed.
